(** * package-automator: a shallow embedding and its verified properties

    The development follows the JavaScript sources module by module:
    [comparator.js], [analyzer.js], [updater.js], [go-analyzer.js],
    [go-updater.js], [reporter.js] and the driver [index.js].

    JavaScript objects used as dictionaries are finite maps ([gmap])
    keyed by strings; only own properties are modelled (names inherited
    from [Object.prototype], such as "constructor", are outside the
    model).  Strings are sequences of code units below 256.  The [semver]
    package, the npm registry, the file system and the [npm]/[go]
    subprocesses are external: [semver] is an interface (class
    [SemverLib]) with one concrete instance used for examples, the others
    are fields of the [World] the driver runs in. *)

From Stdlib Require Import ZArith Ascii Lia.
From Stdlib Require String.
From stdpp Require Import base option strings list gmap fin_maps.
From Equations Require Import Equations.

Set Default Proof Using "Type".

(* ================================================================== *)
(** * Part I: definitions                                              *)
(* ================================================================== *)

(** ** JavaScript basics *)

Module JS.

(** Outcome of running a piece of code that may [throw]: the value it
    returns, or the message of the [Error] it throws. *)
Inductive completion (A : Type) : Type :=
| Normal (a : A)
| Throw (message : string).
Arguments Normal {A} a.
Arguments Throw {A} message.

(** Numbers, as far as the report counters need them: an integer
    (counters stay far below 2^53, where [+] is exact) or [NaN]. *)
Inductive number : Type :=
| Num (z : Z)
| NaN.

(** [ToNumber] of a property read: a missing property reads as
    [undefined], whose numeric value is [NaN]. *)
Definition to_number (v : option Z) : number :=
  match v with
  | Some z => Num z
  | None => NaN
  end.

(** [a + b] on numbers. *)
Definition add (a b : number) : number :=
  match a, b with
  | Num x, Num y => Num (x + y)
  | _, _ => NaN
  end.

(** Truthiness of a string value: only the empty string is falsy. *)
Definition truthy (s : string) : bool :=
  match s with
  | EmptyString => false
  | String _ _ => true
  end.

(** White space as [\s] and [String.prototype.trim] see it, restricted
    to code units below 256: TAB, LF, VT, FF, CR, SPACE and NBSP. *)
Definition is_space (c : ascii) : bool :=
  let n := nat_of_ascii c in
  ((9 <=? n) && (n <=? 13)) || (n =? 32) || (n =? 160).

Definition is_digit (c : ascii) : bool :=
  let n := nat_of_ascii c in (48 <=? n) && (n <=? 57).

(** Line terminators (excluded by [.]) below 256: LF and CR. *)
Definition is_line_terminator (c : ascii) : bool :=
  let n := nat_of_ascii c in (n =? 10) || (n =? 13).

Fixpoint trim_start (s : string) : string :=
  match s with
  | String c t => if is_space c then trim_start t else s
  | EmptyString => EmptyString
  end.

(** [s.trim()] *)
Definition trim (s : string) : string :=
  String.rev (trim_start (String.rev (trim_start s))).

(** [s.split(sep)] for a one-character separator. *)
Fixpoint split_on (sep : ascii) (cur : string) (s : string) : list string :=
  match s with
  | EmptyString => [String.rev cur]
  | String c t =>
      if bool_decide (c = sep)
      then String.rev cur :: split_on sep EmptyString t
      else split_on sep (String c cur) t
  end.

(** [s.split('\n')] *)
Definition split_lines (s : string) : list string := split_on "010"%char EmptyString s.

(** [s.replace(/^v/, '')] *)
Definition strip_leading_v (s : string) : string :=
  match s with
  | String "v"%char t => t
  | _ => s
  end.

(** Decimal digits to a number, most significant first. *)
Fixpoint digits_value (acc : N) (s : string) : N :=
  match s with
  | EmptyString => acc
  | String c t => digits_value (10 * acc + (N_of_ascii c - 48))%N t
  end.

End JS.

(** ** Regular expressions

    A backtracking matcher for the fragment of ECMAScript regular
    expressions the sources use: character classes, sequence,
    alternation, greedy bounded and unbounded repetition, capture
    groups, and the anchors [^] and [$] (without the [m] flag). *)

Module Regex.

Inductive regex : Type :=
| Empty
| CharClass (p : ascii → bool)
| Seq (r1 r2 : regex)
| Alt (r1 r2 : regex)
| Repeat (lo : nat) (hi : option nat) (r : regex)
| Group (i : nat) (r : regex)
| Bol
| Eol.

(** Captured groups, most recent first. *)
Definition captures : Type := list (nat * string).

Fixpoint capture (i : nat) (cs : captures) : option string :=
  match cs with
  | [] => None
  | (j, s) :: cs' => if (i =? j) then Some s else capture i cs'
  end.

(** The part of [s] consumed to reach its suffix [s1]. *)
Definition consumed (s s1 : string) : string :=
  String.substring 0 (String.length s - String.length s1) s.

Definition below (n : nat) (hi : option nat) : bool :=
  match hi with
  | None => true
  | Some h => n <? h
  end.

Section Matcher.
Context {R : Type}.
(** Length of the whole input, to recognise its start. *)
Variable total : nat.

(** [matches r s cs k]: match [r] at the front of [s], then continue
    with [k] on what remains; [None] makes the matcher backtrack.
    A repetition first tries one more iteration (greedy); once the
    lower bound is reached an iteration that consumes nothing is
    rejected, as in the ECMAScript RepeatMatcher. *)
Fixpoint matches (r : regex) (s : string) (cs : captures)
    (k : string → captures → option R) : option R :=
  match r with
  | Empty => k s cs
  | CharClass p =>
      match s with
      | String c t => if p c then k t cs else None
      | EmptyString => None
      end
  | Seq r1 r2 => matches r1 s cs (λ s1 cs1, matches r2 s1 cs1 k)
  | Alt r1 r2 =>
      match matches r1 s cs k with
      | Some x => Some x
      | None => matches r2 s cs k
      end
  | Repeat lo hi r1 =>
      (fix loop (fuel n : nat) (s : string) (cs : captures) {struct fuel} : option R :=
         match fuel with
         | 0 => None
         | S fuel' =>
             let more :=
               if below n hi then
                 matches r1 s cs (λ s1 cs1,
                   if (n <? lo) || (String.length s1 <? String.length s)
                   then loop fuel' (S n) s1 cs1
                   else None)
               else None in
             match more with
             | Some x => Some x
             | None => if lo <=? n then k s cs else None
             end
         end) (lo + String.length s + 1) 0 s cs
  | Group i r1 => matches r1 s cs (λ s1 cs1, k s1 ((i, consumed s s1) :: cs1))
  | Bol => if String.length s =? total then k s cs else None
  | Eol =>
      match s with
      | EmptyString => k s cs
      | String _ _ => None
      end
  end.
End Matcher.

Record match_result : Type := MatchResult {
  index : nat;          (* offset of the match from where the search began *)
  matched : string;     (* match[0] *)
  rest : string;        (* the input after the match *)
  groups : captures
}.

Definition group (i : nat) (m : match_result) : option string :=
  capture i (groups m).

(** Leftmost match at or after the front of [s]. *)
Fixpoint search (total : nat) (r : regex) (idx : nat) (s : string) : option match_result :=
  match matches total r s [] (λ s1 cs, Some (s1, cs)) with
  | Some (s1, cs) =>
      Some {| index := idx; matched := consumed s s1; rest := s1; groups := cs |}
  | None =>
      match s with
      | EmptyString => None
      | String _ t => search total r (S idx) t
      end
  end.

(** [s.match(r)] and [r.exec(s)] for a regex without the [g] flag. *)
Definition exec (r : regex) (s : string) : option match_result :=
  search (String.length s) r 0 s.

(** All successive matches of a regex with the [g] flag: each search
    resumes where the previous match ended (one further when the match
    was empty). *)
Fixpoint all_from (fuel total : nat) (r : regex) (s : string) : list match_result :=
  match fuel with
  | 0 => []
  | S fuel' =>
      match search total r 0 s with
      | None => []
      | Some m =>
          m :: match matched m, rest m with
               | EmptyString, EmptyString => []
               | EmptyString, String _ t => all_from fuel' total r t
               | String _ _, s1 => all_from fuel' total r s1
               end
      end
  end.

Definition exec_all (r : regex) (s : string) : list match_result :=
  all_from (S (String.length s)) (String.length s) r s.

(** [s.replace(r, '')] for a regex with the [g] flag. *)
Fixpoint remove_from (fuel total : nat) (r : regex) (s : string) : string :=
  match fuel with
  | 0 => s
  | S fuel' =>
      match search total r 0 s with
      | None => s
      | Some m =>
          String.substring 0 (index m) s +:+
          match matched m, rest m with
          | EmptyString, EmptyString => EmptyString
          | EmptyString, String c t => String c (remove_from fuel' total r t)
          | String _ _, s1 => remove_from fuel' total r s1
          end
      end
  end.

Definition remove_all (r : regex) (s : string) : string :=
  remove_from (S (String.length s)) (String.length s) r s.

(** [s.replace(r, by)] for a regex without the [g] flag and a
    replacement text without [$] patterns. *)
Definition replace_first (r : regex) (by_ : string) (s : string) : string :=
  match exec r s with
  | None => s
  | Some m => String.substring 0 (index m) s +:+ by_ +:+ rest m
  end.

(** Regex syntax. *)
Definition chr (c : ascii) : regex := CharClass (λ x, bool_decide (x = c)).
Fixpoint lit (s : string) : regex :=
  match s with
  | EmptyString => Empty
  | String c EmptyString => chr c
  | String c t => Seq (chr c) (lit t)
  end.
Definition star (r : regex) : regex := Repeat 0 None r.
Definition plus (r : regex) : regex := Repeat 1 None r.
Definition opt (r : regex) : regex := Repeat 0 (Some 1) r.
Definition space : regex := CharClass JS.is_space.                      (* \s *)
Definition nonspace : regex := CharClass (λ c, negb (JS.is_space c)).   (* [^\s] *)
Definition digit : regex := CharClass JS.is_digit.                      (* \d *)
Definition nondigit : regex := CharClass (λ c, negb (JS.is_digit c)).   (* [^\d] *)
Definition dot : regex := CharClass (λ c, negb (JS.is_line_terminator c)).
Definition seqs (rs : list regex) : regex := foldr Seq Empty rs.

End Regex.

(** ** The [semver] package (external)

    Only the release triple of a version is read by this program.
    [parse] stands for [new SemVer(v)] (strict mode): [None] when the
    constructor throws, so [semver.valid(v)] is truthy exactly when
    [parse v] is [Some _], and [semver.major(v)] is the first component
    of that result.  [coerce] stands for [semver.coerce(v)] without
    options, whose result (when not [null]) has the form X.Y.Z with no
    pre-release tag; [semver.eq] on two such values is equality of the
    triples. *)

Module Semver.

Record SemVer : Type := mkSemVer { major : N; minor : N; patch : N }.

Global Instance SemVer_eq_dec : EqDecision SemVer.
Proof. solve_decision. Defined.

Class SemverLib : Type := {
  parse : string → option SemVer;
  coerce : string → option SemVer
}.

(** [semver.eq(a, b)] on coerced versions. *)
Definition eq (a b : SemVer) : bool := bool_decide (a = b).

(** *** A concrete instance, following the regular expressions of
    semver 7 ([internal/re.js]) *)

Import Regex.

Definition MAX_LENGTH : nat := 256.
Definition MAX_SAFE_INTEGER : N := 9007199254740991.
Definition MAX_SAFE_COMPONENT_LENGTH : nat := 16.

Definition is_letter_dash (c : ascii) : bool :=
  let n := nat_of_ascii c in
  ((65 <=? n) && (n <=? 90)) || ((97 <=? n) && (n <=? 122)) || (n =? 45).

(** [0|[1-9]\d*] *)
Definition NUMERICIDENTIFIER : regex :=
  Alt (chr "0") (Seq (CharClass (λ c, JS.is_digit c && negb (bool_decide (c = "0"%char))))
                     (star digit)).
(** [[a-zA-Z0-9-]] *)
Definition LETTERDASHNUMBER : regex :=
  CharClass (λ c, is_letter_dash c || JS.is_digit c).
(** [\d*[a-zA-Z-][a-zA-Z0-9-]*] *)
Definition NONNUMERICIDENTIFIER : regex :=
  seqs [star digit; CharClass is_letter_dash; star LETTERDASHNUMBER].
Definition MAINVERSION : regex :=
  seqs [Group 1 NUMERICIDENTIFIER; chr "."; Group 2 NUMERICIDENTIFIER; chr ".";
        Group 3 NUMERICIDENTIFIER].
Definition PRERELEASEIDENTIFIER : regex := Alt NUMERICIDENTIFIER NONNUMERICIDENTIFIER.
Definition PRERELEASE : regex :=
  Seq (chr "-")
      (Group 4 (Seq PRERELEASEIDENTIFIER (star (Seq (chr ".") PRERELEASEIDENTIFIER)))).
Definition BUILDIDENTIFIER : regex := plus LETTERDASHNUMBER.
Definition BUILD : regex :=
  Seq (chr "+") (Group 5 (Seq BUILDIDENTIFIER (star (Seq (chr ".") BUILDIDENTIFIER)))).
(** [^v?MAINVERSION PRERELEASE? BUILD?$] *)
Definition FULL : regex :=
  seqs [Bol; opt (chr "v"); MAINVERSION; opt PRERELEASE; opt BUILD; Eol].

Definition component (i : nat) (m : match_result) : option N :=
  s ← group i m;
  let n := JS.digits_value 0 s in
  if (n <=? MAX_SAFE_INTEGER)%N then Some n else None.

Definition parse_strict (version : string) : option SemVer :=
  if MAX_LENGTH <? String.length version then None else
  m ← exec FULL (JS.trim version);
  a ← component 1 m; b ← component 2 m; c ← component 3 m;
  Some (mkSemVer a b c).

Definition digits_1_16 : regex := Repeat 1 (Some MAX_SAFE_COMPONENT_LENGTH) digit.
(** [(^|[^\d])(\d{1,16})(?:\.(\d{1,16}))?(?:\.(\d{1,16}))?(?:$|[^\d])] *)
Definition COERCE : regex :=
  seqs [Group 1 (Alt Bol nondigit); Group 2 digits_1_16;
        opt (Seq (chr ".") (Group 3 digits_1_16));
        opt (Seq (chr ".") (Group 4 digits_1_16));
        Alt Eol nondigit].

Definition coerce_plain (version : string) : option SemVer :=
  m ← exec COERCE version;
  a ← group 2 m;
  parse_strict (a +:+ "." +:+ default "0" (group 3 m) +:+ "." +:+ default "0" (group 4 m)).

Definition semver7 : SemverLib := {| parse := parse_strict; coerce := coerce_plain |}.

End Semver.

(** ** comparator.js and the version check of go-analyzer.js *)

Inductive UpdateType : Type := current | patch | minor | major | unknown.

Global Instance UpdateType_eq_dec : EqDecision UpdateType.
Proof. solve_decision. Defined.

(** An entry of the comparison results; [latest = None] is [null]. *)
Record ComparisonResult : Type := mkComparison {
  installed : string;
  latest : option string;
  updateType : UpdateType;
  canAutoUpdate : bool
}.

Global Instance ComparisonResult_eq_dec : EqDecision ComparisonResult.
Proof. solve_decision. Defined.

(** The result of [checkGoVersionUpdate]. *)
Record GoVersionCheck : Type := mkGoCheck {
  go_updateType : UpdateType;
  go_canAutoUpdate : bool
}.

Section VersionPolicy.
Context {semver : Semver.SemverLib}.

(** comparator.getUpdateType *)
Definition getUpdateType (installed latest : string) : UpdateType :=
  match Semver.parse installed, Semver.parse latest with
  | Some i, Some l =>
      if (Semver.major i <? Semver.major l)%N then major
      else if (Semver.minor i <? Semver.minor l)%N then minor
      else if (Semver.patch i <? Semver.patch l)%N then patch
      else current
  | _, _ => unknown
  end.

(** The body of the loop of comparator.compareVersions: [latest] is
    [latestVersions[packageName]], with [None] for [undefined] and
    [Some None] for [null]. *)
Definition compareEntry (installed : string) (latest : option (option string))
    : ComparisonResult :=
  match latest with
  | Some (Some l) =>
      if negb (JS.truthy l) then mkComparison installed None unknown false
      else if bool_decide (installed = l) then mkComparison installed (Some l) current false
      else
        let updateType := getUpdateType installed l in
        mkComparison installed (Some l) updateType (bool_decide (updateType = patch))
  | _ => mkComparison installed None unknown false
  end.

(** comparator.compareVersions *)
Definition compareVersions (installedVersions : gmap string string)
    (latestVersions : gmap string (option string)) : gmap string ComparisonResult :=
  map_imap (λ packageName installed,
              Some (compareEntry installed (latestVersions !! packageName)))
           installedVersions.

(** goAnalyzer.checkGoVersionUpdate *)
Definition checkGoVersionUpdate (currentVersion latestVersion : string) : GoVersionCheck :=
  match Semver.coerce currentVersion, Semver.coerce latestVersion with
  | Some cur, Some lat =>
      if Semver.eq cur lat then mkGoCheck current false
      else if (Semver.major cur <? Semver.major lat)%N then mkGoCheck major false
      else if (Semver.minor cur <? Semver.minor lat)%N then mkGoCheck minor false
      else if (Semver.patch cur <? Semver.patch lat)%N then mkGoCheck patch true
      else mkGoCheck unknown false
  | _, _ => mkGoCheck unknown false
  end.
End VersionPolicy.

(** comparator.getAutoUpdatePackages.  An entry with [canAutoUpdate]
    and [latest = null] would be stored with the value [null];
    [compareEntry] never builds one, and the map keeps only strings. *)
Definition getAutoUpdatePackages (comparisonResults : gmap string ComparisonResult)
    : gmap string string :=
  omap (λ result, if canAutoUpdate result then latest result else None) comparisonResults.

(** An entry of the manual-update list of the comparator. *)
Record ManualUpdate : Type := mkManual {
  manual_installed : string;
  manual_latest : option string;
  manual_updateType : UpdateType
}.

(** comparator.getManualUpdatePackages *)
Definition getManualUpdatePackages (comparisonResults : gmap string ComparisonResult)
    : gmap string ManualUpdate :=
  omap (λ result,
          if bool_decide (updateType result = minor) || bool_decide (updateType result = major)
          then Some (mkManual (installed result) (latest result) (updateType result))
          else None) comparisonResults.

(** ** go-analyzer.js: reading go.mod *)

Record GoMod : Type := mkGoMod {
  module : string;
  go : string;
  requires : gmap string string
}.

Module GoRegex.
Import Regex.

(** [/module\s+(.+)/] *)
Definition moduleRegex : regex :=
  seqs [lit "module"; plus space; Group 1 (plus dot)].

(** [\d+\.\d+(?:\.\d+)?] *)
Definition goVersion : regex :=
  seqs [plus digit; chr "."; plus digit; opt (Seq (chr ".") (plus digit))].

(** [/go\s+(\d+\.\d+(?:\.\d+)?)/] *)
Definition goRegex : regex :=
  seqs [lit "go"; plus space; Group 1 goVersion].

(** [/require\s+([^\s]+)\s+([^\s]+)/g] *)
Definition requireRegex : regex :=
  seqs [lit "require"; plus space; Group 1 (plus nonspace); plus space;
        Group 2 (plus nonspace)].

(** [/require\s+\(([^)]+)\)/g] *)
Definition requireBlockRegex : regex :=
  seqs [lit "require"; plus space; chr "(";
        Group 1 (plus (CharClass (λ c, negb (bool_decide (c = ")"%char)))));
        chr ")"].

(** [/require\s+\(|\)/g] *)
Definition blockDelimiters : regex :=
  Alt (seqs [lit "require"; plus space; chr "("]) (chr ")").

(** [/([^\s]+)\s+([^\s]+)/] *)
Definition lineRegex : regex :=
  seqs [Group 1 (plus nonspace); plus space; Group 2 (plus nonspace)].
End GoRegex.

(** [goMod.requires[moduleName] = version] for a match with the two
    groups of [requireRegex] or [lineRegex]. *)
Definition recordRequire (requires : gmap string string) (m : Regex.match_result)
    : gmap string string :=
  match Regex.group 1 m, Regex.group 2 m with
  | Some g1, Some g2 =>
      let moduleName := JS.trim g1 in
      let version := JS.strip_leading_v (JS.trim g2) in
      <[moduleName := version]> requires
  | _, _ => requires
  end.

(** The loop over the lines of one require block. *)
Definition recordBlock (requires : gmap string string) (blockMatch : string)
    : gmap string string :=
  let blockContent := Regex.remove_all GoRegex.blockDelimiters blockMatch in
  let lines := JS.split_lines blockContent in
  foldl (λ requires line,
           match Regex.exec GoRegex.lineRegex (JS.trim line) with
           | Some lineMatch => recordRequire requires lineMatch
           | None => requires
           end) requires lines.

(** goAnalyzer.parseGoMod *)
Definition parseGoMod (content : string) : GoMod :=
  let module :=
    match Regex.exec GoRegex.moduleRegex content with
    | Some moduleMatch => JS.trim (default "" (Regex.group 1 moduleMatch))
    | None => ""
    end in
  let go :=
    match Regex.exec GoRegex.goRegex content with
    | Some goMatch => JS.trim (default "" (Regex.group 1 goMatch))
    | None => ""
    end in
  let requires := foldl recordRequire ∅ (Regex.exec_all GoRegex.requireRegex content) in
  let blockMatches := Regex.matched <$> Regex.exec_all GoRegex.requireBlockRegex content in
  let requires := foldl recordBlock requires blockMatches in
  mkGoMod module go requires.

(** goAnalyzer.getLatestGoVersion *)
Definition getLatestGoVersion : string := "1.22.0".

(** ** The manifest and the lock artifact

    Of a parsed package.json only the three dependency sections are
    read or written; a section is [None] when the property is missing.
    Section values are the declared range strings. *)

Record PackageJson : Type := mkPackageJson {
  dependencies : option (gmap string string);
  devDependencies : option (gmap string string);
  optionalDependencies : option (gmap string string)
}.

(** An entry of a lock section; [version = None] when the entry has no
    [version] property. *)
Record LockEntry : Type := mkLockEntry { version : option string }.

(** A parsed package-lock.json: the old format keeps a [dependencies]
    section keyed by package name, the new one a [packages] section
    keyed by install path. *)
Record PackageLock : Type := mkPackageLock {
  lock_dependencies : option (gmap string LockEntry);
  lock_packages : option (gmap string LockEntry)
}.

(** ** analyzer.js (pure part) *)

(** [Object.assign(target, source)] *)
Definition assign {V} (target source : gmap string V) : gmap string V := source ∪ target.

(** analyzer.extractDependencies *)
Definition extractDependencies (packageJson : PackageJson) : gmap string string :=
  let deps : gmap string string := ∅ in
  let deps := match dependencies packageJson with
              | Some section => assign deps section | None => deps end in
  let deps := match devDependencies packageJson with
              | Some section => assign deps section | None => deps end in
  let deps := match optionalDependencies packageJson with
              | Some section => assign deps section | None => deps end in
  deps.

Definition is_range_operator (c : ascii) : bool :=
  bool_decide (c = "^"%char) || bool_decide (c = "~"%char) || bool_decide (c = ">"%char)
  || bool_decide (c = "="%char) || bool_decide (c = "<"%char).

(** [range.replace(/[\^~>=<]/g, '')] *)
Fixpoint stripRange (range : string) : string :=
  match range with
  | EmptyString => EmptyString
  | String c t => if is_range_operator c then stripRange t else String c (stripRange t)
  end.

(** [section[key] && section[key].version], when truthy. *)
Definition lockedVersion (section : gmap string LockEntry) (key : string) : option string :=
  entry ← section !! key;
  v ← version entry;
  if JS.truthy v then Some v else None.

(** analyzer.getInstalledVersions; [packageLock = None] is [null]. *)
Definition getInstalledVersions (packageLock : option PackageLock)
    (deps : gmap string string) : gmap string string :=
  match packageLock with
  | None => stripRange <$> deps
  | Some lock =>
      match lock_dependencies lock, lock_packages lock with
      | Some section, _ =>
          map_imap (λ name range,
                      Some (match lockedVersion section name with
                            | Some v => v
                            | None => stripRange range
                            end)) deps
      | None, Some section =>
          map_imap (λ name range,
                      Some (match lockedVersion section ("node_modules/" +:+ name) with
                            | Some v => v
                            | None => stripRange range
                            end)) deps
      | None, None => ∅
      end
  end.

(** ** The world the program runs in *)

(** A file, by what its readers make of its text: [JSON.parse] yields
    a manifest or a lock artifact, or the text is not JSON. *)
Inductive File : Type :=
| ManifestFile (content : PackageJson)   (* JSON text of a manifest *)
| LockFile (content : PackageLock)       (* JSON text of a lock artifact *)
| TextFile (content : string).           (* any other text, e.g. a go.mod *)

Record World : Type := mkWorld {
  files : gmap string File;
  (** Is [fs.writeFile] on this path going to succeed? *)
  writable : string → bool;
  (** The registry's answer for a package: its [latest] dist-tag
      ([None] when the answer has none), or a failed request.  The
      answer for a name does not change during a run. *)
  registry : string → JS.completion (option string);
  (** Does [npm install] succeed in this directory? *)
  npmInstall : string → bool;
  (** Does [go mod tidy] succeed in this directory? *)
  goModTidy : string → bool
}.

(** Computations over the world that may throw; the world survives a
    [throw]. *)
Definition M (A : Type) : Type := World → JS.completion A * World.

Global Instance M_ret : MRet M := λ A a w, (JS.Normal a, w).
Global Instance M_bind : MBind M := λ A B f c w,
  match c w with
  | (JS.Normal a, w') => f a w'
  | (JS.Throw e, w') => (JS.Throw e, w')
  end.

Definition throw {A} (message : string) : M A := λ w, (JS.Throw message, w).

(** [try { c } catch (error) { h error.message }] *)
Definition try_catch {A} (c : M A) (h : string → M A) : M A := λ w,
  match c w with
  | (JS.Normal a, w') => (JS.Normal a, w')
  | (JS.Throw e, w') => h e w'
  end.

Definition readFile (path : string) : M File := λ w,
  match files w !! path with
  | Some f => (JS.Normal f, w)
  | None => (JS.Throw "ENOENT: no such file or directory", w)
  end.

Definition writeFile (path : string) (f : File) : M unit := λ w,
  if writable w path
  then (JS.Normal (), mkWorld (<[path := f]> (files w)) (writable w) (registry w)
                              (npmInstall w) (goModTidy w))
  else (JS.Throw "EACCES: permission denied", w).

(** [JSON.parse] of a manifest file: any other content is rejected. *)
Definition parseManifest (f : File) : M PackageJson :=
  match f with
  | ManifestFile p => mret p
  | _ => throw "Unexpected token in JSON"
  end.

Definition parseLock (f : File) : M PackageLock :=
  match f with
  | LockFile l => mret l
  | _ => throw "Unexpected token in JSON"
  end.

(** analyzer.readPackageJson *)
Definition readPackageJson (packageJsonPath : string) : M PackageJson :=
  try_catch (content ← readFile packageJsonPath; parseManifest content)
            (λ message, throw ("Failed to read package.json at " +:+ packageJsonPath
                               +:+ ": " +:+ message)).

(** analyzer.readPackageLock; the result [None] is [null]. *)
Definition readPackageLock (packageLockPath : option string) : M (option PackageLock) :=
  match packageLockPath with
  | None => mret None
  | Some p =>
      try_catch (content ← readFile p; lock ← parseLock content; mret (Some lock))
                (λ _, mret None)
  end.

(** ** analyzer.js (registry part) *)

(** analyzer.fetchPackageInfo *)
Definition fetchPackageInfo (packageName : string) : M (option string) := λ w,
  match registry w packageName with
  | JS.Normal latest => (JS.Normal latest, w)
  | JS.Throw message =>
      (JS.Throw ("Failed to fetch info for " +:+ packageName +:+ ": " +:+ message), w)
  end.

(** Running the promises of one batch to their outcomes.  The lookups
    only read the world, so their interleaving does not matter. *)
Fixpoint settle {A} (promises : list (M A)) (w : World) : list (JS.completion A) * World :=
  match promises with
  | [] => ([], w)
  | p :: ps =>
      let '(r, w1) := p w in
      let '(rs, w2) := settle ps w1 in
      (r :: rs, w2)
  end.

(** [await Promise.allSettled(promises)]: fulfilled with the list of
    outcomes, whatever they are. *)
Definition allSettled {A} (promises : list (M A)) : M (list (JS.completion A)) := λ w,
  let '(rs, w') := settle promises w in (JS.Normal rs, w').

(** The body of [results.forEach]: a fulfilled, truthy value is stored,
    anything else is stored as [null] ([None]). *)
Definition recordResult (latestVersions : gmap string (option string))
    (entry : string * JS.completion (option string)) : gmap string (option string) :=
  let '(packageName, result) := entry in
  match result with
  | JS.Normal (Some value) =>
      if JS.truthy value then <[packageName := Some value]> latestVersions
      else <[packageName := None]> latestVersions
  | _ => <[packageName := None]> latestVersions
  end.

Definition batchSize : nat := 10.

(** The [for (let i = 0; i < packageNames.length; i += batchSize)] loop
    of analyzer.fetchLatestVersions, entered with the current [i]. *)
Equations? fetchBatches (packageNames : list string) (i : nat)
    (latestVersions : gmap string (option string))
    : M (gmap string (option string)) by wf (length packageNames - i) lt :=
  fetchBatches packageNames i latestVersions with decide (i < length packageNames) := {
    | left _ =>
        let batch := take batchSize (drop i packageNames) in
        results ← allSettled (fetchPackageInfo <$> batch);
        fetchBatches packageNames (i + batchSize)
                     (foldl recordResult latestVersions (zip batch results));
    | right _ => mret latestVersions }.
Proof. unfold batchSize. lia. Qed.

(** analyzer.fetchLatestVersions *)
Definition fetchLatestVersions (packageNames : list string)
    : M (gmap string (option string)) :=
  fetchBatches packageNames 0 ∅.

(** ** updater.js *)

(** An entry of [updatedDependencies]. *)
Record UpdatedDependency : Type := mkUpdated {
  dep_type : string;   (* the [type] property: the section's name *)
  dep_from : string;   (* [from] *)
  dep_to : string      (* [to] *)
}.

Global Instance UpdatedDependency_eq_dec : EqDecision UpdatedDependency.
Proof. solve_decision. Defined.

(** One of the three loops of updatePackageJson over a section that is
    present: for each approved name with a truthy value in the section
    the value is overwritten, and then an entry is recorded whose [from]
    is read back from the section. *)
Definition updateSection (sectionName : string) (packagesToUpdate : gmap string string)
    (section : gmap string string) (updatedDependencies : gmap string UpdatedDependency)
    : gmap string string * gmap string UpdatedDependency :=
  map_fold (λ packageName newVersion '(section, updatedDependencies),
              match section !! packageName with
              | Some old =>
                  if JS.truthy old then
                    let section := <[packageName := "^" +:+ newVersion]> section in
                    (section,
                     <[packageName := mkUpdated sectionName
                                                (default "" (section !! packageName))
                                                ("^" +:+ newVersion)]> updatedDependencies)
                  else (section, updatedDependencies)
              | None => (section, updatedDependencies)
              end)
           (section, updatedDependencies) packagesToUpdate.

(** [if (packageJson.section) { ...loop... }] *)
Definition updateOptionalSection (sectionName : string) (packagesToUpdate : gmap string string)
    (section : option (gmap string string)) (updatedDependencies : gmap string UpdatedDependency)
    : option (gmap string string) * gmap string UpdatedDependency :=
  match section with
  | Some s =>
      let '(s', u') := updateSection sectionName packagesToUpdate s updatedDependencies in
      (Some s', u')
  | None => (None, updatedDependencies)
  end.

(** The in-memory part of updatePackageJson, between reading and
    writing the file. *)
Definition rewriteManifest (packageJson : PackageJson) (packagesToUpdate : gmap string string)
    : PackageJson * gmap string UpdatedDependency :=
  let updatedDependencies : gmap string UpdatedDependency := ∅ in
  let '(deps, updatedDependencies) :=
    updateOptionalSection "dependencies" packagesToUpdate
                          (dependencies packageJson) updatedDependencies in
  let '(devDeps, updatedDependencies) :=
    updateOptionalSection "devDependencies" packagesToUpdate
                          (devDependencies packageJson) updatedDependencies in
  let '(optDeps, updatedDependencies) :=
    updateOptionalSection "optionalDependencies" packagesToUpdate
                          (optionalDependencies packageJson) updatedDependencies in
  (mkPackageJson deps devDeps optDeps, updatedDependencies).

(** updater.updatePackageJson *)
Definition updatePackageJson (packageJsonPath : string) (packagesToUpdate : gmap string string)
    : M (PackageJson * gmap string UpdatedDependency) :=
  try_catch
    (content ← readFile packageJsonPath;
     packageJson ← parseManifest content;
     let '(packageJson, updatedDependencies) := rewriteManifest packageJson packagesToUpdate in
     _ ← writeFile packageJsonPath (ManifestFile packageJson);
     mret (packageJson, updatedDependencies))
    (λ message, throw ("Failed to update package.json at " +:+ packageJsonPath
                       +:+ ": " +:+ message)).

(** updater.updatePackageLock: runs [npm install], whose effect on the
    lock artifact is not modelled. *)
Definition updatePackageLock (repoPath : string) : M bool := λ w,
  (JS.Normal (npmInstall w repoPath), w).

(** A discovered repository, as scanner.findRepositories builds them. *)
Inductive Repository : Type :=
| NpmRepository (path packageJsonPath : string) (packageLockPath : option string)
| GoRepository (path goModPath : string).

Definition repo_path (repository : Repository) : string :=
  match repository with
  | NpmRepository path _ _ => path
  | GoRepository path _ => path
  end.

(** The update results of either ecosystem; a [None] field is a
    property the object does not have. *)
Inductive UpdateResults : Type :=
| NpmUpdateResults (repository : string) (updated : bool) (message : option string)
    (error : option string) (packageLockUpdated : option bool)
    (updatedDependencies : gmap string UpdatedDependency)
| GoUpdateResults (updated goModUpdated goModTidied : bool) (error : option string).

Definition updated (r : UpdateResults) : bool :=
  match r with
  | NpmUpdateResults _ u _ _ _ _ => u
  | GoUpdateResults u _ _ _ => u
  end.

Definition updatedDependencies (r : UpdateResults) : option (gmap string UpdatedDependency) :=
  match r with
  | NpmUpdateResults _ _ _ _ _ u => Some u
  | GoUpdateResults _ _ _ _ => None
  end.

(** updater.updatePackages, called on an npm repository. *)
Definition updatePackages (path packageJsonPath : string) (packageLockPath : option string)
    (packagesToUpdate : gmap string string) : M UpdateResults :=
  let packageCount := size packagesToUpdate in
  if packageCount =? 0 then
    mret (NpmUpdateResults path false (Some "No packages to update") None None ∅)
  else
    try_catch
      ('(_, updatedDependencies) ← updatePackageJson packageJsonPath packagesToUpdate;
       packageLockUpdated ←
         match packageLockPath with
         | Some _ => updatePackageLock path
         | None => mret false
         end;
       mret (NpmUpdateResults path true None None (Some packageLockUpdated)
                              updatedDependencies))
      (λ message, mret (NpmUpdateResults path false None (Some message) None ∅)).

(** ** go-analyzer.js and go-updater.js: rewriting go.mod *)

(** goAnalyzer.readGoMod *)
Definition readGoMod (goModPath : string) : M GoMod :=
  try_catch
    (f ← readFile goModPath;
     match f with
     | TextFile content => mret (parseGoMod content)
     | _ => throw "not a go.mod text"
     end)
    (λ message, throw ("Failed to read go.mod file: " +:+ message)).

(** goAnalyzer.updateGoVersion *)
Definition goAnalyzer_updateGoVersion (goModPath newVersion : string) : M bool :=
  try_catch
    (f ← readFile goModPath;
     match f with
     | TextFile content =>
         let updatedContent :=
           Regex.replace_first GoRegex.goRegex ("go " +:+ newVersion) content in
         _ ← writeFile goModPath (TextFile updatedContent);
         mret true
     | _ => throw "not a go.mod text"
     end)
    (λ message, throw ("Failed to update Go version: " +:+ message)).

(** goAnalyzer.runGoModTidy *)
Definition runGoModTidy (repoPath : string) : M bool := λ w,
  if goModTidy w repoPath then (JS.Normal true, w)
  else (JS.Throw "Failed to run go mod tidy: Command failed: go mod tidy", w).

(** goUpdater.updateGoVersion *)
Definition goUpdater_updateGoVersion (path goModPath newVersion : string) : M UpdateResults :=
  try_catch
    (goVersionUpdated ← goAnalyzer_updateGoVersion goModPath newVersion;
     goModTidied ←
       (if goVersionUpdated
        then try_catch (runGoModTidy path) (λ _, mret false)
        else mret false);
     mret (GoUpdateResults goVersionUpdated goVersionUpdated goModTidied None))
    (λ message, mret (GoUpdateResults false false false (Some message))).

(** ** reporter.js *)

(** An entry of the auto-update or manual-update bucket. *)
Record PackageChange : Type := mkChange {
  from : string;
  to : option string;
  change_updateType : UpdateType
}.

Global Instance PackageChange_eq_dec : EqDecision PackageChange.
Proof. solve_decision. Defined.

(** An entry of the current bucket. *)
Record CurrentPackage : Type := mkCurrentPackage { current_version : string }.

(** The [updateResults] property of a repository report. *)
Inductive ReportedUpdate : Type :=
| NpmReported (packageLockUpdated : option bool)
              (updatedDependencies : option (gmap string UpdatedDependency))
| GoReported (goModUpdated goModTidied : option bool).

Record RepoReport : Type := mkRepoReport {
  report_path : string;
  report_name : string;
  report_type : string;
  packageCount : nat;
  autoUpdateCount : nat;
  manualUpdateCount : nat;
  currentCount : nat;
  autoUpdated : bool;
  autoUpdatePackages : gmap string PackageChange;
  manualUpdatePackages : gmap string PackageChange;
  currentPackages : gmap string CurrentPackage;
  report_updateResults : option ReportedUpdate
}.

(** The three buckets, in the order the code declares them. *)
Record Buckets : Type := mkBuckets {
  bucket_auto : gmap string PackageChange;
  bucket_manual : gmap string PackageChange;
  bucket_current : gmap string CurrentPackage
}.

(** The body of the categorising loop. *)
Definition categorize (packageName : string) (result : ComparisonResult) (b : Buckets)
    : Buckets :=
  if bool_decide (updateType result = current) then
    mkBuckets (bucket_auto b) (bucket_manual b)
              (<[packageName := mkCurrentPackage (installed result)]> (bucket_current b))
  else if canAutoUpdate result then
    mkBuckets (<[packageName := mkChange (installed result) (latest result)
                                         (updateType result)]> (bucket_auto b))
              (bucket_manual b) (bucket_current b)
  else if bool_decide (updateType result = minor) || bool_decide (updateType result = major) then
    mkBuckets (bucket_auto b)
              (<[packageName := mkChange (installed result) (latest result)
                                         (updateType result)]> (bucket_manual b))
              (bucket_current b)
  else b.

Definition categorizeAll (comparisonResults : gmap string ComparisonResult) : Buckets :=
  map_fold categorize (mkBuckets ∅ ∅ ∅) comparisonResults.

(** [path.basename] for POSIX paths: the last non-empty component. *)
Definition basename (p : string) : string :=
  default "" (last (filter (λ x, x ≠ EmptyString) (JS.split_on "/"%char EmptyString p))).

Definition repo_type (repository : Repository) : string :=
  match repository with
  | NpmRepository _ _ _ => "npm"
  | GoRepository _ _ => "go"
  end.

(** Reads of properties an update-results object may lack. *)
Definition packageLockUpdated_of (r : UpdateResults) : option bool :=
  match r with
  | NpmUpdateResults _ _ _ _ p _ => p
  | GoUpdateResults _ _ _ _ => None
  end.
Definition goModUpdated_of (r : UpdateResults) : option bool :=
  match r with
  | GoUpdateResults _ g _ _ => Some g
  | NpmUpdateResults _ _ _ _ _ _ => None
  end.
Definition goModTidied_of (r : UpdateResults) : option bool :=
  match r with
  | GoUpdateResults _ _ t _ => Some t
  | NpmUpdateResults _ _ _ _ _ _ => None
  end.

(** reporter.generateRepositoryReport; [updateResults = None] is the
    default [null]. *)
Definition generateRepositoryReport (repository : Repository)
    (comparisonResults : gmap string ComparisonResult)
    (updateResults : option UpdateResults) : RepoReport :=
  let b := categorizeAll comparisonResults in
  {| report_path := repo_path repository;
     report_name := basename (repo_path repository);
     report_type := repo_type repository;
     packageCount := size comparisonResults;
     autoUpdateCount := size (bucket_auto b);
     manualUpdateCount := size (bucket_manual b);
     currentCount := size (bucket_current b);
     autoUpdated := match updateResults with Some r => updated r | None => false end;
     autoUpdatePackages := bucket_auto b;
     manualUpdatePackages := bucket_manual b;
     currentPackages := bucket_current b;
     report_updateResults :=
       match updateResults with
       | Some r =>
           if updated r then
             match repository with
             | NpmRepository _ _ _ =>
                 Some (NpmReported (packageLockUpdated_of r) (updatedDependencies r))
             | GoRepository _ _ =>
                 Some (GoReported (goModUpdated_of r) (goModTidied_of r))
             end
           else None
       | None => None
       end |}.

(** What the driver collects per repository: a report, or the object
    [{path, name, error}] it pushes when processing threw. *)
Inductive ReportEntry : Type :=
| Report (r : RepoReport)
| Failed (path name error : string).

(** Property reads on an entry; the failure object has no counters. *)
Definition read_packageCount (e : ReportEntry) : option Z :=
  match e with Report r => Some (Z.of_nat (packageCount r)) | Failed _ _ _ => None end.
Definition read_autoUpdateCount (e : ReportEntry) : option Z :=
  match e with Report r => Some (Z.of_nat (autoUpdateCount r)) | Failed _ _ _ => None end.
Definition read_manualUpdateCount (e : ReportEntry) : option Z :=
  match e with Report r => Some (Z.of_nat (manualUpdateCount r)) | Failed _ _ _ => None end.
Definition read_currentCount (e : ReportEntry) : option Z :=
  match e with Report r => Some (Z.of_nat (currentCount r)) | Failed _ _ _ => None end.
Definition read_error (e : ReportEntry) : option string :=
  match e with Report _ => None | Failed _ _ error => Some error end.

Record Summary : Type := mkSummary {
  repositoryCount : nat;
  totalPackages : JS.number;
  totalAutoUpdated : JS.number;
  totalManualUpdateNeeded : JS.number;
  totalCurrent : JS.number
}.

Record ConsolidatedReport : Type := mkConsolidated {
  timestamp : string;
  summary : Summary;
  repositories : list ReportEntry
}.

(** The body of [repositoryReports.forEach], on the four running
    totals. *)
Definition addReport (totals : JS.number * JS.number * JS.number * JS.number)
    (report : ReportEntry) : JS.number * JS.number * JS.number * JS.number :=
  let '(totalPackages, totalAutoUpdated, totalManualUpdateNeeded, totalCurrent) := totals in
  (JS.add totalPackages (JS.to_number (read_packageCount report)),
   JS.add totalAutoUpdated (JS.to_number (read_autoUpdateCount report)),
   JS.add totalManualUpdateNeeded (JS.to_number (read_manualUpdateCount report)),
   JS.add totalCurrent (JS.to_number (read_currentCount report))).

(** reporter.generateConsolidatedReport; [now] is the ISO text of the
    current time. *)
Definition generateConsolidatedReport (now : string) (repositoryReports : list ReportEntry)
    : ConsolidatedReport :=
  let '(totalPackages, totalAutoUpdated, totalManualUpdateNeeded, totalCurrent) :=
    foldl addReport (JS.Num 0, JS.Num 0, JS.Num 0, JS.Num 0) repositoryReports in
  {| timestamp := now;
     summary := {| repositoryCount := length repositoryReports;
                   totalPackages := totalPackages;
                   totalAutoUpdated := totalAutoUpdated;
                   totalManualUpdateNeeded := totalManualUpdateNeeded;
                   totalCurrent := totalCurrent |};
     repositories := repositoryReports |}.

(** ** index.js: the driver *)

Section Driver.
Context {semver : Semver.SemverLib}.

(** processNpmRepository: returns the array of reports as it leaves
    it.  [Object.keys] is taken in the map's own order; the order only
    decides which names share a batch. *)
Definition processNpmRepository (path packageJsonPath : string)
    (packageLockPath : option string) (repositoryReports : list ReportEntry)
    : M (list ReportEntry) :=
  packageJson ← readPackageJson packageJsonPath;
  packageLock ←
    match packageLockPath with
    | Some p => readPackageLock (Some p)
    | None => mret None
    end;
  let deps := extractDependencies packageJson in
  let packageNames := (map_to_list deps).*1 in
  if length packageNames =? 0 then mret repositoryReports else
  let installedVersions := getInstalledVersions packageLock deps in
  latestVersions ← fetchLatestVersions packageNames;
  let comparisonResults := compareVersions installedVersions latestVersions in
  let autoUpdatePackages := getAutoUpdatePackages comparisonResults in
  let autoUpdateCount := size autoUpdatePackages in
  updateResults ←
    (if 0 <? autoUpdateCount
     then r ← updatePackages path packageJsonPath packageLockPath autoUpdatePackages;
          mret (Some r)
     else mret None);
  let repoReport :=
    generateRepositoryReport (NpmRepository path packageJsonPath packageLockPath)
                             comparisonResults updateResults in
  mret (repositoryReports ++ [Report repoReport]).

(** processGoRepository *)
Definition processGoRepository (path goModPath : string)
    (repositoryReports : list ReportEntry) : M (list ReportEntry) :=
  goMod ← readGoMod goModPath;
  let latestGoVersion := getLatestGoVersion in
  let versionComparison := checkGoVersionUpdate (go goMod) latestGoVersion in
  let comparisonResults : gmap string ComparisonResult :=
    {[ "go" := mkComparison (go goMod) (Some latestGoVersion)
                            (go_updateType versionComparison)
                            (go_canAutoUpdate versionComparison) ]} in
  updateResults ←
    (if go_canAutoUpdate versionComparison
     then r ← goUpdater_updateGoVersion path goModPath latestGoVersion;
          mret (Some r)
     else mret None);
  let repoReport :=
    generateRepositoryReport (GoRepository path goModPath) comparisonResults updateResults in
  mret (repositoryReports ++ [Report repoReport]).

(** The body of the loop of [main] over the repositories. *)
Definition processRepository (repositoryReports : list ReportEntry)
    (repository : Repository) : M (list ReportEntry) :=
  try_catch
    (match repository with
     | NpmRepository path packageJsonPath packageLockPath =>
         processNpmRepository path packageJsonPath packageLockPath repositoryReports
     | GoRepository path goModPath =>
         processGoRepository path goModPath repositoryReports
     end)
    (λ message,
       mret (repositoryReports ++
             [Failed (repo_path repository) (basename (repo_path repository)) message])).

Fixpoint processRepositories (repositoryReports : list ReportEntry)
    (repos : list Repository) : M (list ReportEntry) :=
  match repos with
  | [] => mret repositoryReports
  | repository :: rest =>
      repositoryReports ← processRepository repositoryReports repository;
      processRepositories repositoryReports rest
  end.

(** How a run of [main] ends, up to the consolidated report: exit
    code 1 when nothing was discovered, else the report that is then
    handed to the writers. *)
Inductive MainOutcome : Type :=
| Exit1
| Reported (report : ConsolidatedReport).

(** main, given what scanner.findRepositories discovered and the
    time at which the report is stamped. *)
Definition main (discovered : list Repository) (now : string) : M MainOutcome :=
  if length discovered =? 0 then mret Exit1 else
  repositoryReports ← processRepositories [] discovered;
  mret (Reported (generateConsolidatedReport now repositoryReports)).
End Driver.

(** ** Reference notions used by the statements *)

(** The classification read off two release triples by their first
    differing component, whichever side is larger. *)
Definition firstDifference (a b : Semver.SemVer) : UpdateType :=
  if negb (Semver.major a =? Semver.major b)%N then major
  else if negb (Semver.minor a =? Semver.minor b)%N then minor
  else if negb (Semver.patch a =? Semver.patch b)%N then patch
  else current.

(** [b] is not older than [a]: the triples compared lexicographically. *)
Definition notOlder (a b : Semver.SemVer) : Prop :=
  (Semver.major a < Semver.major b)%N ∨
  (Semver.major a = Semver.major b ∧
   ((Semver.minor a < Semver.minor b)%N ∨
    (Semver.minor a = Semver.minor b ∧ (Semver.patch a ≤ Semver.patch b)%N))).

(** What the categorising loop stores for an entry in each bucket, and
    whether it stores it nowhere. *)
Definition currentEntry (result : ComparisonResult) : option CurrentPackage :=
  if bool_decide (updateType result = current)
  then Some (mkCurrentPackage (installed result)) else None.

Definition autoEntry (result : ComparisonResult) : option PackageChange :=
  if bool_decide (updateType result = current) then None
  else if canAutoUpdate result
       then Some (mkChange (installed result) (latest result) (updateType result))
       else None.

Definition manualEntry (result : ComparisonResult) : option PackageChange :=
  if bool_decide (updateType result = current) then None
  else if canAutoUpdate result then None
  else if bool_decide (updateType result = minor) || bool_decide (updateType result = major)
       then Some (mkChange (installed result) (latest result) (updateType result))
       else None.

Definition dropped (result : ComparisonResult) : bool :=
  negb (bool_decide (updateType result = current)) && negb (canAutoUpdate result)
  && negb (bool_decide (updateType result = minor) || bool_decide (updateType result = major)).

(** The invariant of comparison results (spec, data model): an entry
    is auto-updatable only if its classification is [patch]. *)
Definition policyInvariant (comparisonResults : gmap string ComparisonResult) : Prop :=
  map_Forall (λ _ r, canAutoUpdate r = true → updateType r = patch) comparisonResults.

(** Comparison results with one entry of each classification. *)
Definition exampleResults : gmap string ComparisonResult :=
  {[ "axios" := mkComparison "0.21.1" (Some "0.21.4") patch true;
     "react" := mkComparison "17.0.2" (Some "18.2.0") major false;
     "lodash" := mkComparison "4.17.20" (Some "4.18.0") minor false;
     "chalk" := mkComparison "4.1.2" (Some "4.1.2") current false;
     "left-pad" := mkComparison "latest" None unknown false ]}.

(** The value updatePackageJson writes for [packageName] in [section]:
    the caret-prefixed approved version when the name is approved and
    the section holds a truthy value for it. *)
Definition rewrittenTo (packagesToUpdate section : gmap string string)
    (packageName : string) : option string :=
  match packagesToUpdate !! packageName, section !! packageName with
  | Some newVersion, Some old =>
      if JS.truthy old then Some ("^" +:+ newVersion) else None
  | _, _ => None
  end.

(** The changed-set without its [from] fields: which names changed,
    in which section, and to what. *)
Definition changedTo (updatedDependencies : gmap string UpdatedDependency)
    : gmap string (string * string) :=
  (λ d, (dep_type d, dep_to d)) <$> updatedDependencies.

(** The scenario of the specification: a manifest declaring axios at
    ^0.21.1, no lock artifact, and a registry that answers 0.21.4. *)
Definition axiosManifest : PackageJson :=
  mkPackageJson (Some {[ "axios" := "^0.21.1" ]}) None None.

Definition axiosApproved : gmap string string := {[ "axios" := "0.21.4" ]}.

Definition axiosWorld : World :=
  mkWorld {[ "/repo/package.json" := ManifestFile axiosManifest ]}
          (λ _, true)
          (λ name, if bool_decide (name = "axios") then JS.Normal (Some "0.21.4")
                   else JS.Throw "Request failed with status code 404")
          (λ _, true) (λ _, true).

(** What fetchLatestVersions stores for a name, given the registry's
    answer for it: the version, or [null] ([None]) when the request
    failed or brought no usable [latest] tag. *)
Definition storedVersion (answer : JS.completion (option string)) : option string :=
  match answer with
  | JS.Normal (Some value) => if JS.truthy value then Some value else None
  | _ => None
  end.

(** A go.mod with one block-style require declaration. *)
Definition blockGoMod : string :=
  "module example.com/app

go 1.21

require (
	github.com/a/b v1.2.3
)
".

(** A parsed lock artifact with neither a [dependencies] nor a
    [packages] section, e.g. the JSON text
    [{ name: app, lockfileVersion: 1 }]. *)
Definition bareLock : PackageLock := mkPackageLock None None.

(** The outcome of fetchPackageInfo for a name. *)
Definition fetchOutcome (w : World) (name : string) : JS.completion (option string) :=
  match registry w name with
  | JS.Normal latest => JS.Normal latest
  | JS.Throw message => JS.Throw ("Failed to fetch info for " +:+ name +:+ ": " +:+ message)
  end.

(** Ten package names and a registry that knows all but one of them. *)
Definition tenNames : list string :=
  ["axios"; "react"; "lodash"; "chalk"; "express"; "left-pad"; "debug"; "glob"; "semver";
   "dotenv"].

Definition tenWorld : World :=
  mkWorld ∅ (λ _, true)
          (λ name, if bool_decide (name = "left-pad")
                   then JS.Throw "Request failed with status code 404"
                   else JS.Normal (Some "1.0.0"))
          (λ _, true) (λ _, true).

(** Two discovered repositories: the scenario repository and one whose
    package.json is not valid JSON. *)
Definition twoRepositories : list Repository :=
  [NpmRepository "/repo" "/repo/package.json" None;
   NpmRepository "/broken" "/broken/package.json" None].

Definition twoWorld : World :=
  mkWorld {[ "/repo/package.json" := ManifestFile axiosManifest;
             "/broken/package.json" := TextFile "{ name: " ]}
          (λ _, true)
          (λ name, if bool_decide (name = "axios") then JS.Normal (Some "0.21.4")
                   else JS.Throw "Request failed with status code 404")
          (λ _, true) (λ _, true).

(** The four totals of a summary. *)
Definition totals (s : Summary) : list JS.number :=
  [totalPackages s; totalAutoUpdated s; totalManualUpdateNeeded s; totalCurrent s].

(** A go.mod that declares the same module in a block and, further
    down, on a single line. *)
Definition blockThenLineGoMod : string :=
  "module example.com/app
go 1.21
require (
	github.com/a/b v1.0.0
)
require github.com/a/b v2.0.0
".

(** [packageJson.section && packageJson.section[name]]: the value a
    section holds for a name, when the section is there. *)
Definition sectionValue (section : option (gmap string string)) (name : string)
    : option string :=
  s ← section; s !! name.

(** Has the string no range operator? *)
Fixpoint operatorFree (range : string) : bool :=
  match range with
  | EmptyString => true
  | String c t => negb (is_range_operator c) && operatorFree t
  end.



(** ** config.js and scanner.js

    Node's [path] module and the [glob] package are external: the
    functions used from them are parameters.  [findFiles] stands for
    scanner.findFiles, the (already normalized) answer of [glob] for a
    directory and a pattern.  The directories config.init creates for
    the two output files are not part of the world modelled here. *)

Record Config : Type := mkConfig {
  repoPaths : list string;
  baseDir : option string;          (* [None]: the property is not set *)
  reportPath : string;
  documentPath : string;
  documentFormat : string;
  generateSeparateReports : bool
}.

(** [process.env.NAME], when truthy. *)
Definition envValue (env : gmap string string) (name : string) : option string :=
  match env !! name with
  | Some v => if JS.truthy v then Some v else None
  | None => None
  end.

(** [fs.pathExists(p)] *)
Definition pathExists (w : World) (p : string) : bool :=
  bool_decide (is_Some (files w !! p)).

Section Paths.
Variable normalize : string → string.            (* path.normalize *)
Variable join : string → string → string.        (* path.join, two arguments *)
Variable dirname : string → string.              (* path.dirname *)
Variable findFiles : string → string → list string.

(** The object literal of config.js followed by config.init(). *)
Definition config_init (env : gmap string string) (cwd : string) : Config :=
  let reportPath := default "./reports/report.json" (envValue env "REPORT_PATH") in
  let documentPath := default "./reports/packages.md" (envValue env "DOCUMENT_PATH") in
  let documentFormat := default "markdown" (envValue env "DOCUMENT_FORMAT") in
  let generateSeparateReports :=
    negb (bool_decide (env !! "GENERATE_SEPARATE_REPORTS" = Some "false")) in
  let '(repoPaths, baseDir) :=
    match envValue env "REPO_PATHS" with
    | Some paths =>
        ((λ p, normalize (JS.trim p)) <$> JS.split_on ","%char EmptyString paths, None)
    | None =>
        match envValue env "BASE_DIR" with
        | Some dir => ([], Some (normalize dir))
        | None => ([normalize cwd], None)
        end
    end in
  mkConfig repoPaths baseDir (normalize reportPath) (normalize documentPath)
           documentFormat generateSeparateReports.

(** The body of the loop over [config.repoPaths]. *)
Definition scanRepoPath (w : World) (repositories : list Repository) (repoPath : string)
    : list Repository :=
  let normalizedPath := normalize repoPath in
  let packageJsonPath := normalize (join normalizedPath "package.json") in
  let packageLockPath := normalize (join normalizedPath "package-lock.json") in
  let goModPath := normalize (join normalizedPath "go.mod") in
  if pathExists w packageJsonPath then
    repositories ++
    [NpmRepository normalizedPath packageJsonPath
                   (if pathExists w packageLockPath then Some packageLockPath else None)]
  else if pathExists w goModPath then
    repositories ++ [GoRepository normalizedPath goModPath]
  else repositories.

(** The body of the loop over the package.json files found. *)
Definition scanPackageJson (w : World) (repositories : list Repository)
    (packageJsonPath : string) : list Repository :=
  let normalizedPackageJsonPath := normalize packageJsonPath in
  let repoPath := dirname normalizedPackageJsonPath in
  let packageLockPath := normalize (join repoPath "package-lock.json") in
  repositories ++
  [NpmRepository repoPath normalizedPackageJsonPath
                 (if pathExists w packageLockPath then Some packageLockPath else None)].

(** The body of the loop over the go.mod files found. *)
Definition scanGoMod (repositories : list Repository) (goModPath : string)
    : list Repository :=
  let normalizedGoModPath := normalize goModPath in
  let repoPath := dirname normalizedGoModPath in
  if negb (existsb (λ repo, bool_decide (repo_path repo = repoPath)) repositories)
  then repositories ++ [GoRepository repoPath normalizedGoModPath]
  else repositories.

(** scanner.findRepositories, reading the configuration it is given. *)
Definition findRepositories (config : Config) (w : World) : list Repository :=
  if 0 <? length (repoPaths config) then
    foldl (scanRepoPath w) [] (repoPaths config)
  else
    match baseDir config with
    | Some dir =>
        if JS.truthy dir then
          let normalizedBaseDir := normalize dir in
          let repositories :=
            foldl (scanPackageJson w) [] (findFiles normalizedBaseDir "**/package.json") in
          foldl scanGoMod repositories (findFiles normalizedBaseDir "**/go.mod")
        else []
    | None => []
    end.
End Paths.

(** The manifest a discovered repository names exists, and so does the
    lock artifact when one is named. *)
Definition manifestExists (w : World) (repository : Repository) : Prop :=
  match repository with
  | NpmRepository _ packageJsonPath packageLockPath =>
      pathExists w packageJsonPath = true ∧
      ∀ l, packageLockPath = Some l → pathExists w l = true
  | GoRepository _ goModPath => pathExists w goModPath = true
  end.

(** No Go repository of the list shares its path with a repository
    listed before it. *)
Definition goPathsFresh (repositories : list Repository) : Prop :=
  ∀ i j path goModPath r,
    i < j → repositories !! j = Some (GoRepository path goModPath) →
    repositories !! i = Some r → repo_path r ≠ path.

(** A plain model of [path.join] for examples. *)
Definition joinSlash (a b : string) : string := a +:+ "/" +:+ b.


(** ** Reference notions for the regular expressions

    [lang r s]: the string [s] is one the expression [r] can match
    with its anchors satisfied; [capturedBy r i g]: the string [g] is
    matched by a group numbered [i] inside [r]. *)
Definition within (n : nat) (hi : option nat) : Prop :=
  match hi with
  | None => True
  | Some h => n ≤ h
  end.

Fixpoint lang (r : Regex.regex) (s : string) : Prop :=
  match r with
  | Regex.Empty | Regex.Bol | Regex.Eol => s = ""
  | Regex.CharClass p => ∃ c, s = String c "" ∧ p c = true
  | Regex.Seq r1 r2 => ∃ s1 s2, s = s1 +:+ s2 ∧ lang r1 s1 ∧ lang r2 s2
  | Regex.Alt r1 r2 => lang r1 s ∨ lang r2 s
  | Regex.Repeat lo hi r1 =>
      ∃ ss, s = foldr String.append "" ss ∧ lo ≤ length ss ∧ within (length ss) hi ∧
            Forall (lang r1) ss
  | Regex.Group _ r1 => lang r1 s
  end.

Fixpoint capturedBy (r : Regex.regex) (i : nat) (g : string) : Prop :=
  match r with
  | Regex.Group j r1 => (i = j ∧ lang r1 g) ∨ capturedBy r1 i g
  | Regex.Seq r1 r2 | Regex.Alt r1 r2 => capturedBy r1 i g ∨ capturedBy r2 i g
  | Regex.Repeat _ _ r1 => capturedBy r1 i g
  | _ => False
  end.

(** Every character of [s] satisfies [p]. *)
Fixpoint allChars (p : ascii → bool) (s : string) : bool :=
  match s with
  | EmptyString => true
  | String c t => p c && allChars p t
  end.

(** [x] occurs in [s]. *)
Definition occursIn (x s : string) : Prop := ∃ pre post, s = pre +:+ x +:+ post.

Definition spaceFree (s : string) : bool := allChars (λ c, negb (JS.is_space c)) s.

(** A non-empty run of decimal digits. *)
Definition digits (s : string) : Prop := s ≠ "" ∧ allChars JS.is_digit s = true.

(** The entries goMod.requires may hold: a non-empty module name and a
    version, both without white space. *)
Definition wellFormedRequires (requires : gmap string string) : Prop :=
  ∀ name version, requires !! name = Some version →
                  name ≠ "" ∧ spaceFree name = true ∧ spaceFree version = true.

(** [x] occurs in [s], decided. *)
Fixpoint occurs (x s : string) : bool :=
  String.prefix x s ||
  match s with
  | EmptyString => false
  | String _ t => occurs x t
  end.

(** A dotted version of two or three non-empty runs of digits, the
    strings [\d+\.\d+(?:\.\d+)?] matches. *)
Definition dottedVersion (s : string) : Prop :=
  ∃ a b c, s = a +:+ "." +:+ b +:+ c ∧ digits a ∧ digits b ∧
           (c = "" ∨ ∃ d, c = "." +:+ d ∧ digits d).

(* ================================================================== *)
(** * Part II: properties                                              *)
(* ================================================================== *)

(** ** Sanity checks of the embedding on small inputs *)

Example parse_strict_examples :
  Semver.parse_strict "0.21.1" = Some (Semver.mkSemVer 0 21 1) ∧
  Semver.parse_strict "v1.2.3-beta.1+build.5" = Some (Semver.mkSemVer 1 2 3) ∧
  Semver.parse_strict "1.2" = None ∧
  Semver.parse_strict "01.2.3" = None.
Proof. vm_compute. done. Qed.

Example coerce_plain_examples :
  Semver.coerce_plain "1.21" = Some (Semver.mkSemVer 1 21 0) ∧
  Semver.coerce_plain "v2" = Some (Semver.mkSemVer 2 0 0) ∧
  Semver.coerce_plain "go1.22.5rc" = Some (Semver.mkSemVer 1 22 5) ∧
  Semver.coerce_plain "" = None.
Proof. vm_compute. done. Qed.

Example getUpdateType_examples :
  @getUpdateType Semver.semver7 "17.0.2" "18.2.0" = major ∧
  @getUpdateType Semver.semver7 "1.2.3" "1.3.0" = minor ∧
  @getUpdateType Semver.semver7 "0.21.1" "0.21.4" = patch ∧
  @getUpdateType Semver.semver7 "v1.2.3" "1.2.3" = current ∧
  @getUpdateType Semver.semver7 "latest" "1.2.3" = unknown.
Proof. vm_compute. done. Qed.

Example regex_examples :
  Regex.matched <$> Regex.exec (Regex.seqs [Regex.plus (Regex.chr "a"); Regex.lit "ab"]) "xaaab"
    = Some "aaab" ∧
  Regex.exec (Regex.seqs [Regex.Bol; Regex.lit "ab"]) "xab" = None ∧
  Regex.matched <$> Regex.exec_all (Regex.plus Regex.digit) "go 1.21.3" = ["1"; "21"; "3"] ∧
  Regex.remove_all (Regex.Alt (Regex.lit "ab") (Regex.chr ")")) "xab)y)ab" = "xy" ∧
  Regex.replace_first GoRegex.goRegex "go 1.22.0" "module m
go 1.21
" = "module m
go 1.22.0
".
Proof. vm_compute. done. Qed.

Example extractDependencies_precedence :
  extractDependencies (mkPackageJson (Some {[ "a" := "^1.0.0"; "b" := "^1.0.0" ]})
                                     (Some {[ "a" := "^2.0.0"; "c" := "^2.0.0" ]})
                                     (Some {[ "a" := "^3.0.0" ]}))
  = {[ "a" := "^3.0.0"; "b" := "^1.0.0"; "c" := "^2.0.0" ]}.
Proof. vm_compute. reflexivity. Qed.

(** ** The version policy *)

Section VersionPolicyFacts.
Context {semver : Semver.SemverLib}.

Lemma compareEntry_canAutoUpdate installed latest :
  canAutoUpdate (compareEntry installed latest) = true ↔
  updateType (compareEntry installed latest) = patch.
Proof.
  unfold compareEntry.
  destruct latest as [[l|]|]; simpl; try (split; discriminate).
  destruct (JS.truthy l); simpl; [|split; discriminate].
  case_bool_decide; simpl; [split; discriminate|].
  apply bool_decide_eq_true.
Qed.

Lemma checkGoVersionUpdate_canAutoUpdate cur lat :
  go_canAutoUpdate (checkGoVersionUpdate cur lat) = true ↔
  go_updateType (checkGoVersionUpdate cur lat) = patch.
Proof.
  unfold checkGoVersionUpdate.
  destruct (Semver.coerce cur), (Semver.coerce lat); simpl; try (split; discriminate).
  repeat (match goal with |- context [if ?b then _ else _] => destruct b end;
          simpl; try (split; (discriminate || reflexivity))).
Qed.

Lemma compareVersions_lookup installedVersions latestVersions name :
  compareVersions installedVersions latestVersions !! name =
  (λ installed, compareEntry installed (latestVersions !! name))
    <$> installedVersions !! name.
Proof.
  unfold compareVersions. rewrite map_lookup_imap.
  by destruct (installedVersions !! name).
Qed.

(** C10: in the result of either version check, [canAutoUpdate] is
    true if and only if [updateType] is exactly [patch]: for every
    entry the npm comparator builds (for every installed version and
    every registry answer, missing and [null] included), and for every
    pair of versions given to the Go checker. *)
Theorem canAutoUpdate_iff_patch :
  (∀ installed latest,
     canAutoUpdate (compareEntry installed latest) = true ↔
     updateType (compareEntry installed latest) = patch) ∧
  (∀ installedVersions latestVersions,
     map_Forall (λ _ r, canAutoUpdate r = true ↔ updateType r = patch)
                (compareVersions installedVersions latestVersions)) ∧
  (∀ currentVersion latestVersion,
     go_canAutoUpdate (checkGoVersionUpdate currentVersion latestVersion) = true ↔
     go_updateType (checkGoVersionUpdate currentVersion latestVersion) = patch).
Proof.
  split; [apply compareEntry_canAutoUpdate|].
  split; [|apply checkGoVersionUpdate_canAutoUpdate].
  intros installedVersions latestVersions name r.
  rewrite compareVersions_lookup.
  destruct (installedVersions !! name) as [i|]; simpl; [|done].
  intros [= <-]. apply compareEntry_canAutoUpdate.
Qed.

Lemma firstDifference_upgrade (a b : Semver.SemVer) :
  notOlder a b →
  firstDifference a b =
    if (Semver.major a <? Semver.major b)%N then major
    else if (Semver.minor a <? Semver.minor b)%N then minor
    else if (Semver.patch a <? Semver.patch b)%N then patch
    else current.
Proof.
  unfold notOlder, firstDifference. intros Hle.
  destruct (N.eqb_spec (Semver.major a) (Semver.major b)),
           (N.eqb_spec (Semver.minor a) (Semver.minor b)),
           (N.eqb_spec (Semver.patch a) (Semver.patch b)),
           (N.ltb_spec (Semver.major a) (Semver.major b)),
           (N.ltb_spec (Semver.minor a) (Semver.minor b)),
           (N.ltb_spec (Semver.patch a) (Semver.patch b));
    simpl; try reflexivity; lia.
Qed.

(** C1 (amended): when both strings are valid versions and the latest
    one is not older than the installed one, the classification is
    decided by the first component, major then minor then patch, at
    which the two triples differ, and is [current] when the triples
    are equal, whatever the raw strings; for the npm comparator on
    parsed versions and for the Go checker on coerced versions. *)
Theorem classification_by_first_difference_when_not_older
    (a b : string) (va vb : Semver.SemVer) :
  notOlder va vb →
  (Semver.parse a = Some va → Semver.parse b = Some vb →
   getUpdateType a b = firstDifference va vb) ∧
  (Semver.coerce a = Some va → Semver.coerce b = Some vb →
   go_updateType (checkGoVersionUpdate a b) = firstDifference va vb).
Proof.
  intros Hle. rewrite (firstDifference_upgrade _ _ Hle). split.
  - intros Ha Hb. unfold getUpdateType. by rewrite Ha, Hb.
  - intros Ha Hb. unfold checkGoVersionUpdate. rewrite Ha, Hb.
    unfold Semver.eq. case_bool_decide as Heq; simpl.
    + subst vb. by rewrite !N.ltb_irrefl.
    + destruct (N.ltb_spec (Semver.major va) (Semver.major vb)); [done|].
      destruct (N.ltb_spec (Semver.minor va) (Semver.minor vb)); [done|].
      destruct (N.ltb_spec (Semver.patch va) (Semver.patch vb)); [done|].
      exfalso. apply Heq. destruct va, vb; simpl in *.
      unfold notOlder in Hle; simpl in Hle. f_equal; lia.
Qed.
End VersionPolicyFacts.

Lemma classification_by_first_difference_witness :
  notOlder (Semver.mkSemVer 1 2 3) (Semver.mkSemVer 1 3 0) ∧
  @getUpdateType Semver.semver7 "v1.2.3" "1.3.0" = minor ∧
  go_updateType (@checkGoVersionUpdate Semver.semver7 "v1.2.3" "1.3.0") = minor.
Proof.
  assert (Hle : notOlder (Semver.mkSemVer 1 2 3) (Semver.mkSemVer 1 3 0)).
  { right. split; [reflexivity|]. left. reflexivity. }
  split; [exact Hle|].
  destruct (@classification_by_first_difference_when_not_older Semver.semver7
              "v1.2.3" "1.3.0" _ _ Hle) as [Hnpm Hgo].
  split; [apply Hnpm|apply Hgo]; reflexivity.
Defined.

(** C1, as stated, fails when the latest version is older than the
    installed one: 2.0.0 against 1.5.0 differ first in the major
    component, yet both checks answer [minor] (the major test fails in
    the direction it is made, and the minor test is then made without
    the majors being equal). *)
Lemma classification_of_older_latest_counterexample :
  Semver.parse_strict "2.0.0" = Some (Semver.mkSemVer 2 0 0) ∧
  Semver.parse_strict "1.5.0" = Some (Semver.mkSemVer 1 5 0) ∧
  Semver.coerce_plain "2.0.0" = Some (Semver.mkSemVer 2 0 0) ∧
  Semver.coerce_plain "1.5.0" = Some (Semver.mkSemVer 1 5 0) ∧
  firstDifference (Semver.mkSemVer 2 0 0) (Semver.mkSemVer 1 5 0) = major ∧
  @getUpdateType Semver.semver7 "2.0.0" "1.5.0" = minor ∧
  go_updateType (@checkGoVersionUpdate Semver.semver7 "2.0.0" "1.5.0") = minor.
Proof. vm_compute. done. Qed.

(** ** The repository report *)

Lemma categorizeAll_buckets (results : gmap string ComparisonResult) :
  bucket_current (categorizeAll results) = omap currentEntry results ∧
  bucket_auto (categorizeAll results) = omap autoEntry results ∧
  bucket_manual (categorizeAll results) = omap manualEntry results.
Proof.
  unfold categorizeAll.
  apply (map_fold_weak_ind
           (λ b m, bucket_current b = omap currentEntry m ∧
                   bucket_auto b = omap autoEntry m ∧
                   bucket_manual b = omap manualEntry m)).
  - by rewrite !omap_empty.
  - intros i x m b Hi (Hc & Ha & Hm).
    assert (Hnone : ∀ B (f : ComparisonResult → option B), delete i (omap f m) = omap f m).
    { intros B f. apply delete_id. by rewrite lookup_omap, Hi. }
    rewrite !omap_insert. unfold categorize, currentEntry, autoEntry, manualEntry.
    destruct (bool_decide (updateType x = current)); simpl;
      [by rewrite Hc, Ha, Hm, !Hnone|].
    destruct (canAutoUpdate x); simpl; [by rewrite Hc, Ha, Hm, !Hnone|].
    destruct (bool_decide (updateType x = minor) || bool_decide (updateType x = major));
      simpl; by rewrite Hc, Ha, Hm, !Hnone.
Qed.

Lemma bucket_sizes (results : gmap string ComparisonResult) :
  size (omap autoEntry results) + size (omap manualEntry results)
  + size (omap currentEntry results) + size (filter (λ kv, dropped kv.2 = true) results)
  = size results.
Proof.
  induction results as [|i x m Hi _ IH] using map_first_key_ind.
  - by rewrite !omap_empty, map_filter_empty, !map_size_empty.
  - assert (Hnone : ∀ B (f : ComparisonResult → option B), omap f m !! i = None).
    { intros B f. by rewrite lookup_omap, Hi. }
    assert (Hfilter : filter (λ kv, dropped kv.2 = true) m !! i = None).
    { by rewrite map_lookup_filter, Hi. }
    rewrite !omap_insert, map_filter_insert, map_size_insert_None by done.
    rewrite (delete_id m i Hi).
    case_decide as Hd; simpl in Hd;
      destruct (currentEntry x) eqn:Ec, (autoEntry x) eqn:Ea, (manualEntry x) eqn:Em.
    all: try (exfalso; revert Hd Ec Ea Em;
              unfold currentEntry, autoEntry, manualEntry, dropped;
              destruct (bool_decide (updateType x = current)), (canAutoUpdate x),
                (bool_decide (updateType x = minor) || bool_decide (updateType x = major));
              simpl; congruence).
    all: rewrite ?delete_id by apply Hnone;
      rewrite ?map_size_insert_None by (apply Hnone || apply Hfilter); lia.
Qed.

(** C8: on comparison results that satisfy the policy invariant, the
    report puts a [current] entry in the current bucket only, an
    auto-updatable entry in the auto-updated bucket only, a [minor] or
    [major] entry in the manual bucket only and an [unknown] entry in no
    bucket; nothing else enters a bucket; [packageCount] counts all the
    entries, so as soon as one entry is [unknown] the three bucket
    counts sum to less than [packageCount]. *)
Theorem generateRepositoryReport_partition (repository : Repository)
    (results : gmap string ComparisonResult) (updateResults : option UpdateResults) :
  policyInvariant results →
  let report := generateRepositoryReport repository results updateResults in
  packageCount report = size results ∧
  (∀ name r, results !! name = Some r →
     (updateType r = current →
        currentPackages report !! name = Some (mkCurrentPackage (installed r)) ∧
        autoUpdatePackages report !! name = None ∧
        manualUpdatePackages report !! name = None) ∧
     (canAutoUpdate r = true →
        autoUpdatePackages report !! name
          = Some (mkChange (installed r) (latest r) (updateType r)) ∧
        manualUpdatePackages report !! name = None ∧
        currentPackages report !! name = None) ∧
     (updateType r = minor ∨ updateType r = major →
        manualUpdatePackages report !! name
          = Some (mkChange (installed r) (latest r) (updateType r)) ∧
        autoUpdatePackages report !! name = None ∧
        currentPackages report !! name = None) ∧
     (updateType r = unknown →
        autoUpdatePackages report !! name = None ∧
        manualUpdatePackages report !! name = None ∧
        currentPackages report !! name = None)) ∧
  (∀ name, results !! name = None →
     autoUpdatePackages report !! name = None ∧
     manualUpdatePackages report !! name = None ∧
     currentPackages report !! name = None) ∧
  ((∃ name r, results !! name = Some r ∧ updateType r = unknown) →
   autoUpdateCount report + manualUpdateCount report + currentCount report
   < packageCount report).
Proof.
  intros Hinv report.
  destruct (categorizeAll_buckets results) as (Hc & Ha & Hm).
  assert (Hcur : currentPackages report = omap currentEntry results) by exact Hc.
  assert (Haut : autoUpdatePackages report = omap autoEntry results) by exact Ha.
  assert (Hman : manualUpdatePackages report = omap manualEntry results) by exact Hm.
  assert (Hcounts : autoUpdateCount report + manualUpdateCount report + currentCount report
                    + size (filter (λ kv, dropped kv.2 = true) results) = size results).
  { unfold report; simpl. rewrite Hc, Ha, Hm. apply bucket_sizes. }
  split; [reflexivity|].
  rewrite Hcur, Haut, Hman.
  split; [|split].
  - intros name r Hr. rewrite !lookup_omap, Hr. simpl.
    unfold currentEntry, autoEntry, manualEntry.
    destruct (canAutoUpdate r) eqn:Hauto.
    + rewrite (Hinv _ _ Hr Hauto). simpl.
      repeat split; try done; intros; try discriminate.
      all: match goal with H : _ ∨ _ |- _ => destruct H; discriminate end.
    + repeat split; try discriminate.
      all: match goal with
           | H : updateType _ = _ |- _ => rewrite H
           | H : _ ∨ _ |- _ => destruct H as [H | H]; rewrite H
           end; done.
  - intros name Hr. by rewrite !lookup_omap, Hr.
  - intros (name & r & Hr & Hu).
    assert (Hdrop : filter (λ kv, dropped kv.2 = true) results !! name = Some r).
    { apply map_lookup_filter_Some. split; [done|]. simpl. unfold dropped.
      destruct (canAutoUpdate r) eqn:Hauto.
      { specialize (Hinv _ _ Hr Hauto). congruence. }
      rewrite Hu. done. }
    assert (size (filter (λ kv, dropped kv.2 = true) results) ≠ 0).
    { apply map_size_ne_0_lookup. eauto. }
    change (packageCount report) with (size results). lia.
Qed.

Lemma generateRepositoryReport_partition_witness :
  policyInvariant exampleResults ∧
  autoUpdateCount (generateRepositoryReport (NpmRepository "/repo" "/repo/package.json" None)
                                            exampleResults None)
  + manualUpdateCount (generateRepositoryReport (NpmRepository "/repo" "/repo/package.json" None)
                                                exampleResults None)
  + currentCount (generateRepositoryReport (NpmRepository "/repo" "/repo/package.json" None)
                                           exampleResults None)
  < packageCount (generateRepositoryReport (NpmRepository "/repo" "/repo/package.json" None)
                                           exampleResults None).
Proof.
  assert (Hinv : policyInvariant exampleResults).
  { apply map_Forall_to_list.
    set (l := map_to_list exampleResults). vm_compute in l. subst l.
    repeat constructor; simpl; congruence. }
  split; [exact Hinv|].
  apply (generateRepositoryReport_partition
           (NpmRepository "/repo" "/repo/package.json" None) exampleResults None Hinv).
  exists "left-pad", (mkComparison "latest" None unknown false).
  split; reflexivity.
Defined.

Example generateRepositoryReport_counts :
  let report := generateRepositoryReport (NpmRepository "/repo" "/repo/package.json" None)
                                         exampleResults None in
  (packageCount report, autoUpdateCount report, manualUpdateCount report, currentCount report)
  = (5, 1, 2, 1).
Proof. vm_compute. reflexivity. Qed.

(** ** Rewriting the manifest *)

Lemma updateSection_lookup (sectionName : string) (pkgs section : gmap string string)
    (u : gmap string UpdatedDependency) (k : string) :
  (updateSection sectionName pkgs section u).1 !! k =
    match rewrittenTo pkgs section k with
    | Some v => Some v
    | None => section !! k
    end ∧
  (updateSection sectionName pkgs section u).2 !! k =
    match rewrittenTo pkgs section k with
    | Some v => Some (mkUpdated sectionName v v)
    | None => u !! k
    end.
Proof.
  revert k. unfold updateSection.
  apply (map_fold_weak_ind
           (λ (r : gmap string string * gmap string UpdatedDependency) m, ∀ k,
              r.1 !! k = match rewrittenTo m section k with
                         | Some v => Some v | None => section !! k end ∧
              r.2 !! k = match rewrittenTo m section k with
                         | Some v => Some (mkUpdated sectionName v v) | None => u !! k end)).
  - intros k. unfold rewrittenTo. by rewrite lookup_empty.
  - intros i x m [s1 u1] Hi IH k. simpl in IH.
    assert (Hs1 : s1 !! i = section !! i).
    { destruct (IH i) as [-> _]. unfold rewrittenTo. by rewrite Hi. }
    rewrite Hs1. unfold rewrittenTo. destruct (decide (i = k)) as [<- | Hne].
    + destruct (IH i) as [H1 H2]. unfold rewrittenTo in H1, H2. rewrite Hi in H1, H2.
      rewrite lookup_insert_eq.
      destruct (section !! i) as [old|] eqn:Hold; simpl;
        [destruct (JS.truthy old) eqn:Ht; simpl|].
      * by rewrite !lookup_insert_eq.
      * destruct (<[i:=x]> m !! i); by rewrite H1, H2.
      * destruct (<[i:=x]> m !! i); by rewrite H1, H2.
    + rewrite (lookup_insert_ne m i k x) by done.
      destruct (IH k) as [Hk1 Hk2]. unfold rewrittenTo in Hk1, Hk2.
      destruct (section !! i) as [old|]; simpl; [destruct (JS.truthy old); simpl|];
        try rewrite (lookup_insert_ne s1 i k) by done;
        try rewrite (lookup_insert_ne u1 i k) by done;
        by rewrite ?Hk1, ?Hk2.
Qed.

Lemma rewrittenTo_again (sectionName : string) (pkgs section : gmap string string)
    (u : gmap string UpdatedDependency) (k : string) :
  rewrittenTo pkgs (updateSection sectionName pkgs section u).1 k = rewrittenTo pkgs section k.
Proof.
  unfold rewrittenTo at 1.
  destruct (updateSection_lookup sectionName pkgs section u k) as [-> _].
  unfold rewrittenTo.
  destruct (pkgs !! k) as [v|]; [|done].
  destruct (section !! k) as [old|]; [|done].
  destruct (JS.truthy old) eqn:Hold; simpl; [done|]. by rewrite Hold.
Qed.

(** A second pass over an updated section changes nothing in it and
    records what a first pass records. *)
Lemma updateSection_again (sectionName : string) (pkgs section : gmap string string)
    (u0 u : gmap string UpdatedDependency) :
  updateSection sectionName pkgs (updateSection sectionName pkgs section u0).1 u =
  ((updateSection sectionName pkgs section u0).1, (updateSection sectionName pkgs section u).2).
Proof.
  set (s1 := (updateSection sectionName pkgs section u0).1).
  rewrite (surjective_pairing (updateSection sectionName pkgs s1 u)).
  f_equal; apply map_eq; intros k.
  - destruct (updateSection_lookup sectionName pkgs s1 u k) as [-> _].
    unfold s1. rewrite rewrittenTo_again.
    destruct (updateSection_lookup sectionName pkgs section u0 k) as [-> _].
    by destruct (rewrittenTo pkgs section k).
  - destruct (updateSection_lookup sectionName pkgs s1 u k) as [_ ->].
    unfold s1. rewrite rewrittenTo_again.
    by destruct (updateSection_lookup sectionName pkgs section u k) as [_ ->].
Qed.

Lemma updateSection_fst_independent (sectionName : string) (pkgs section : gmap string string)
    (u u' : gmap string UpdatedDependency) :
  (updateSection sectionName pkgs section u).1 = (updateSection sectionName pkgs section u').1.
Proof.
  apply map_eq; intros k.
  destruct (updateSection_lookup sectionName pkgs section u k) as [-> _].
  by destruct (updateSection_lookup sectionName pkgs section u' k) as [-> _].
Qed.

Lemma updateOptionalSection_again (sectionName : string) (pkgs : gmap string string)
    (section : option (gmap string string)) (u0 u : gmap string UpdatedDependency) :
  updateOptionalSection sectionName pkgs
                        (updateOptionalSection sectionName pkgs section u0).1 u =
  ((updateOptionalSection sectionName pkgs section u0).1,
   (updateOptionalSection sectionName pkgs section u).2).
Proof.
  unfold updateOptionalSection. destruct section as [s|]; [|done].
  rewrite (surjective_pairing (updateSection sectionName pkgs s u0)),
          (surjective_pairing (updateSection sectionName pkgs s u)). simpl.
  rewrite updateSection_again.
  by rewrite (surjective_pairing (updateSection sectionName pkgs s u)).
Qed.

Lemma rewriteManifest_unfold (packageJson : PackageJson) (pkgs : gmap string string) :
  rewriteManifest packageJson pkgs =
  let d := updateOptionalSection "dependencies" pkgs (dependencies packageJson) ∅ in
  let e := updateOptionalSection "devDependencies" pkgs (devDependencies packageJson) d.2 in
  let o := updateOptionalSection "optionalDependencies" pkgs
                                 (optionalDependencies packageJson) e.2 in
  (mkPackageJson d.1 e.1 o.1, o.2).
Proof.
  unfold rewriteManifest.
  destruct (updateOptionalSection "dependencies" _ _ _) as [d1 d2]; simpl.
  destruct (updateOptionalSection "devDependencies" _ _ _) as [e1 e2]; simpl.
  by destruct (updateOptionalSection "optionalDependencies" _ _ _) as [o1 o2].
Qed.

(** Rewriting an already rewritten manifest with the same approved
    versions leaves it as it is and records the same entries again. *)
Lemma rewriteManifest_again (packageJson : PackageJson) (pkgs : gmap string string) :
  rewriteManifest (rewriteManifest packageJson pkgs).1 pkgs = rewriteManifest packageJson pkgs.
Proof.
  rewrite !rewriteManifest_unfold. simpl.
  by rewrite !updateOptionalSection_again.
Qed.

Lemma updateOptionalSection_recorded (sectionName : string) (pkgs : gmap string string)
    (section : option (gmap string string)) (u : gmap string UpdatedDependency)
    (k : string) (d : UpdatedDependency) :
  (updateOptionalSection sectionName pkgs section u).2 !! k = Some d →
  (∃ s newVersion old,
     section = Some s ∧ pkgs !! k = Some newVersion ∧ s !! k = Some old ∧
     d = mkUpdated sectionName ("^" +:+ newVersion) ("^" +:+ newVersion)) ∨
  u !! k = Some d.
Proof.
  unfold updateOptionalSection. destruct section as [s|]; [|by right].
  rewrite (surjective_pairing (updateSection sectionName pkgs s u)). simpl.
  destruct (updateSection_lookup sectionName pkgs s u k) as [_ ->].
  unfold rewrittenTo.
  destruct (pkgs !! k) as [v|] eqn:Hv; [|by right].
  destruct (s !! k) as [old|] eqn:Hold; [|by right].
  destruct (JS.truthy old); [|by right].
  intros [= <-]. left. by exists s, v, old.
Qed.

(** Every entry updatePackageJson records is for an approved name that
    a section holds, carries the caret-prefixed approved version as its
    [to], and carries that same new value as its [from]. *)
Lemma rewriteManifest_recorded (packageJson : PackageJson) (pkgs : gmap string string)
    (k : string) (d : UpdatedDependency) :
  (rewriteManifest packageJson pkgs).2 !! k = Some d →
  ∃ newVersion s old,
    pkgs !! k = Some newVersion ∧ s !! k = Some old ∧
    (dependencies packageJson = Some s ∨ devDependencies packageJson = Some s ∨
     optionalDependencies packageJson = Some s) ∧
    dep_to d = "^" +:+ newVersion ∧ dep_from d = "^" +:+ newVersion.
Proof.
  rewrite rewriteManifest_unfold. simpl. intros H.
  apply updateOptionalSection_recorded in H as [(s & v & old & ? & ? & ? & ->) | H];
    [exists v, s, old; naive_solver|].
  apply updateOptionalSection_recorded in H as [(s & v & old & ? & ? & ? & ->) | H];
    [exists v, s, old; naive_solver|].
  apply updateOptionalSection_recorded in H as [(s & v & old & ? & ? & ? & ->) | H];
    [exists v, s, old; naive_solver|].
  by rewrite lookup_empty in H.
Qed.

Lemma updatePackageJson_run (p : string) (pkgs : gmap string string) (w : World)
    (packageJson : PackageJson) :
  files w !! p = Some (ManifestFile packageJson) →
  writable w p = true →
  updatePackageJson p pkgs w =
  (JS.Normal (rewriteManifest packageJson pkgs),
   mkWorld (<[p := ManifestFile (rewriteManifest packageJson pkgs).1]> (files w))
           (writable w) (registry w) (npmInstall w) (goModTidy w)).
Proof.
  intros Hfile Hw.
  unfold updatePackageJson, try_catch, mbind, M_bind, readFile, parseManifest. rewrite Hfile.
  unfold mret, M_ret.
  destruct (rewriteManifest packageJson pkgs) as [pj u]. simpl.
  unfold writeFile. by rewrite Hw.
Qed.

Lemma updatePackageJson_Normal (p : string) (pkgs : gmap string string) (w w1 : World)
    (r : PackageJson * gmap string UpdatedDependency) :
  updatePackageJson p pkgs w = (JS.Normal r, w1) →
  ∃ packageJson,
    files w !! p = Some (ManifestFile packageJson) ∧ writable w p = true.
Proof.
  unfold updatePackageJson, try_catch, mbind, M_bind, readFile, parseManifest, throw.
  destruct (files w !! p) as [[pj| |]|] eqn:Hfile; try discriminate.
  unfold mret, M_ret. destruct (rewriteManifest pj pkgs) as [pj' u]. simpl.
  unfold writeFile. destruct (writable w p) eqn:Hw; [|discriminate].
  intros _. by exists pj.
Qed.

Lemma updatePackages_run (path p : string) (lock : option string)
    (pkgs : gmap string string) (w : World) (packageJson : PackageJson) :
  (size pkgs =? 0) = false →
  files w !! p = Some (ManifestFile packageJson) →
  writable w p = true →
  updatePackages path p lock pkgs w =
  (JS.Normal (NpmUpdateResults path true None None
                (Some match lock with Some _ => npmInstall w path | None => false end)
                (rewriteManifest packageJson pkgs).2),
   mkWorld (<[p := ManifestFile (rewriteManifest packageJson pkgs).1]> (files w))
           (writable w) (registry w) (npmInstall w) (goModTidy w)).
Proof.
  intros Hsize Hfile Hw. unfold updatePackages. rewrite Hsize.
  unfold try_catch, mbind, M_bind.
  rewrite (updatePackageJson_run _ _ _ _ Hfile Hw).
  destruct (rewriteManifest packageJson pkgs) as [pj u]. simpl.
  by destruct lock.
Qed.

Lemma updatePackages_updated (path p : string) (lock : option string)
    (pkgs : gmap string string) (w w1 : World) (r1 : UpdateResults) :
  updatePackages path p lock pkgs w = (JS.Normal r1, w1) →
  updated r1 = true →
  (size pkgs =? 0) = false ∧
  ∃ packageJson, files w !! p = Some (ManifestFile packageJson) ∧ writable w p = true.
Proof.
  unfold updatePackages. destruct (size pkgs =? 0) eqn:Hsize.
  { intros [= <- <-]. discriminate. }
  unfold try_catch, mbind, M_bind.
  destruct (updatePackageJson p pkgs w) as [[r|e] w0] eqn:Hrun.
  - intros _ _. split; [done|]. by eapply updatePackageJson_Normal.
  - intros [= <- <-]. discriminate.
Qed.

(** C3: at the scenario manifest, where the dependencies section holds
    ^0.21.1 for axios before the rewrite, updatePackageJson records for
    axios the entry [{type: dependencies, from: ^0.21.4, to: ^0.21.4}]:
    [to] is the caret-prefixed approved version, but [from] is read
    after the section was overwritten and is the new value, not the
    value the section held before. *)
Theorem updatePackageJson_from_is_the_new_value :
  dependencies axiosManifest = Some {[ "axios" := "^0.21.1" ]} ∧
  (updatePackageJson "/repo/package.json" axiosApproved axiosWorld).1 =
    JS.Normal (mkPackageJson (Some {[ "axios" := "^0.21.4" ]}) None None,
               {[ "axios" := mkUpdated "dependencies" "^0.21.4" "^0.21.4" ]}).
Proof. split; [reflexivity|]. vm_compute. reflexivity. Qed.

(** ** Running the update twice *)

(** C4 (amended): when a run of updatePackages updated the manifest, a
    second run with the same approved versions on the world the first
    one left rewrites the manifest to the same content (the world is
    unchanged), reports [updated: true] again and records the same
    names with the same section and [to] as the first run; the
    changed-set is not emptied. *)
Theorem updatePackages_again (w w1 : World) (path packageJsonPath : string)
    (packageLockPath : option string) (pkgs : gmap string string) (r1 : UpdateResults) :
  updatePackages path packageJsonPath packageLockPath pkgs w = (JS.Normal r1, w1) →
  updated r1 = true →
  ∃ r2, updatePackages path packageJsonPath packageLockPath pkgs w1 = (JS.Normal r2, w1) ∧
        updated r2 = true ∧
        changedTo <$> updatedDependencies r2 = changedTo <$> updatedDependencies r1.
Proof.
  intros Hrun Hupdated.
  destruct (updatePackages_updated _ _ _ _ _ _ _ Hrun Hupdated) as (Hsize & pj & Hfile & Hw).
  rewrite (updatePackages_run _ _ _ _ _ _ Hsize Hfile Hw) in Hrun.
  injection Hrun as <- <-.
  set (w0 := mkWorld _ _ _ _ _).
  eexists. split.
  { rewrite (updatePackages_run _ _ _ _ w0 (rewriteManifest pj pkgs).1 Hsize);
      [|apply lookup_insert_eq|exact Hw].
    rewrite rewriteManifest_again. unfold w0. simpl. by rewrite insert_insert_eq. }
  split; reflexivity.
Qed.

Lemma updatePackages_again_witness :
  ∃ r2, updatePackages "/repo" "/repo/package.json" None axiosApproved
          (updatePackages "/repo" "/repo/package.json" None axiosApproved axiosWorld).2
        = (JS.Normal r2,
           (updatePackages "/repo" "/repo/package.json" None axiosApproved axiosWorld).2) ∧
        updated r2 = true ∧
        changedTo <$> updatedDependencies r2 =
        Some {[ "axios" := ("dependencies", "^0.21.4") ]}.
Proof.
  exact (updatePackages_again axiosWorld _ "/repo" "/repo/package.json" None axiosApproved
           (NpmUpdateResults "/repo" true None None (Some false)
              {[ "axios" := mkUpdated "dependencies" "^0.21.4" "^0.21.4" ]})
           eq_refl eq_refl).
Defined.

(** C4, as stated, fails: on the scenario manifest the second run with
    the same approved versions reports [updated: true] and a changed-set
    that still holds axios. *)
Lemma updatePackages_second_run_counterexample :
  let first := updatePackages "/repo" "/repo/package.json" None axiosApproved axiosWorld in
  let second := updatePackages "/repo" "/repo/package.json" None axiosApproved first.2 in
  second.1 = JS.Normal (NpmUpdateResults "/repo" true None None (Some false)
                          {[ "axios" := mkUpdated "dependencies" "^0.21.4" "^0.21.4" ]}) ∧
  ({[ "axios" := mkUpdated "dependencies" "^0.21.4" "^0.21.4" ]}
     : gmap string UpdatedDependency) ≠ ∅.
Proof.
  split; [vm_compute; reflexivity|].
  intros H. apply (f_equal (λ m : gmap string UpdatedDependency, m !! "axios")) in H.
  by rewrite lookup_singleton_eq, lookup_empty in H.
Qed.

(** ** Installed versions *)

Lemma stripRange_no_operator (range : string) (c : ascii) :
  c ∈ String.list_ascii_of_string (stripRange range) → is_range_operator c = false.
Proof.
  induction range as [|a t IH]; simpl; [by intros ?%elem_of_nil|].
  destruct (is_range_operator a) eqn:Ha; [done|]. simpl.
  intros [-> | H]%elem_of_cons; [done|]. by apply IH.
Qed.

(** With no lock, or with a lock that has one of the two sections,
    every declared name gets an entry: the pinned version when the lock
    provides one, else the declared range without range operators. *)
Lemma getInstalledVersions_lookup (packageLock : option PackageLock)
    (deps : gmap string string) (name : string) :
  match packageLock with
  | None => getInstalledVersions packageLock deps !! name = stripRange <$> deps !! name
  | Some lock =>
      match lock_dependencies lock, lock_packages lock with
      | Some section, _ =>
          getInstalledVersions packageLock deps !! name =
          (λ range, default (stripRange range) (lockedVersion section name)) <$> deps !! name
      | None, Some section =>
          getInstalledVersions packageLock deps !! name =
          (λ range, default (stripRange range)
                            (lockedVersion section ("node_modules/" +:+ name)))
            <$> deps !! name
      | None, None => getInstalledVersions packageLock deps !! name = None
      end
  end.
Proof.
  destruct packageLock as [[[sd|] [sp|]]|]; simpl;
    rewrite ?lookup_fmap, ?map_lookup_imap, ?lookup_empty; try done.
  all: destruct (deps !! name); simpl; try done.
  all: by destruct (lockedVersion _ _).
Qed.

(** C5: for a lock object that has neither of the two format sections
    getInstalledVersions returns the empty map, whatever is declared:
    the declared axios has no entry, although its range stripped of the
    range operators is 0.21.1. *)
Theorem getInstalledVersions_lock_without_sections :
  (∀ deps : gmap string string, getInstalledVersions (Some bareLock) deps = ∅) ∧
  getInstalledVersions (Some bareLock) {[ "axios" := "^0.21.1" ]} !! "axios" = None ∧
  stripRange "^0.21.1" = "0.21.1".
Proof. split; [done|]. split; reflexivity. Qed.

(** ** Reading go.mod *)

Example parseGoMod_single_line :
  parseGoMod "module example.com/app
go 1.21.3
require github.com/x/y v0.1.0
require github.com/x/y v0.2.0
require golang.org/z 1.0.0
" = mkGoMod "example.com/app" "1.21.3"
            {[ "github.com/x/y" := "0.2.0"; "golang.org/z" := "1.0.0" ]}.
Proof. vm_compute. reflexivity. Qed.

(** C7: on a go.mod whose only require declaration is a block, the
    requires map has, besides the declared module github.com/a/b, the
    key "(" mapped to the module's name: the single-line pattern also
    matches the opening of the block, taking the parenthesis for a
    module name and the first module for its version. *)
Theorem parseGoMod_block_adds_parenthesis_key :
  parseGoMod blockGoMod =
  mkGoMod "example.com/app" "1.21"
          {[ "github.com/a/b" := "1.2.3"; "(" := "github.com/a/b" ]}.
Proof. vm_compute. reflexivity. Qed.

(** ** Fetching the latest versions *)

Lemma settle_fetch (batch : list string) (w : World) :
  settle (fetchPackageInfo <$> batch) w = (fetchOutcome w <$> batch, w).
Proof.
  induction batch as [|name batch IH]; [done|].
  assert (Hf : fetchPackageInfo name w = (fetchOutcome w name, w)).
  { unfold fetchPackageInfo, fetchOutcome. by destruct (registry w name). }
  rewrite !fmap_cons. cbn [settle]. by rewrite Hf, IH.
Qed.

Lemma recordResult_lookup (w : World) (batch : list string)
    (acc : gmap string (option string)) (k : string) :
  foldl recordResult acc (zip batch (fetchOutcome w <$> batch)) !! k =
  if decide (k ∈ batch) then Some (storedVersion (registry w k)) else acc !! k.
Proof.
  revert acc. induction batch as [|name batch IH]; intros acc.
  { by rewrite decide_False by apply not_elem_of_nil. }
  rewrite fmap_cons. cbn [zip_with foldl]. rewrite IH. destruct (decide (k ∈ batch)) as [Hin|Hnin].
  { by rewrite decide_True by (by right). }
  assert (Hrec : recordResult acc (name, fetchOutcome w name)
                 = <[name := storedVersion (registry w name)]> acc).
  { unfold recordResult, fetchOutcome, storedVersion.
    destruct (registry w name) as [[v|]|]; try done. by destruct (JS.truthy v). }
  rewrite Hrec. destruct (decide (k = name)) as [->|Hne].
  - rewrite lookup_insert_eq. by rewrite decide_True by left.
  - rewrite lookup_insert_ne by done.
    rewrite decide_False; [done|]. by intros [?|?]%elem_of_cons.
Qed.

Lemma fetchBatches_spec (w : World) (packageNames : list string) (i : nat)
    (acc : gmap string (option string)) :
  ∃ latestVersions,
    fetchBatches packageNames i acc w = (JS.Normal latestVersions, w) ∧
    ∀ k, latestVersions !! k =
         if decide (k ∈ drop i packageNames) then Some (storedVersion (registry w k))
         else acc !! k.
Proof.
  funelim (fetchBatches packageNames i acc).
  - unfold mbind, M_bind, allSettled. rewrite settle_fetch.
    set (batch := take batchSize (drop i packageNames)).
    destruct (H (fetchOutcome w <$> batch) w w) as (m & Hrun & Hm).
    exists m. split; [exact Hrun|]. intros k. rewrite Hm, recordResult_lookup.
    assert (Hsplit : k ∈ drop i packageNames ↔
                     k ∈ batch ∨ k ∈ drop (i + batchSize) packageNames).
    { rewrite <- (take_drop batchSize (drop i packageNames)) at 1.
      by rewrite elem_of_app, drop_drop. }
    repeat case_decide; try done; exfalso; tauto.
  - exists latestVersions. split; [done|]. intros k.
    rewrite drop_ge by lia. by rewrite decide_False by apply not_elem_of_nil.
Qed.

Lemma fetchLatestVersions_spec (w : World) (packageNames : list string) :
  ∃ latestVersions,
    fetchLatestVersions packageNames w = (JS.Normal latestVersions, w) ∧
    ∀ k, latestVersions !! k =
         if decide (k ∈ packageNames) then Some (storedVersion (registry w k)) else None.
Proof.
  destruct (fetchBatches_spec w packageNames 0 ∅) as (m & Hrun & Hm).
  exists m. split; [exact Hrun|]. intros k. rewrite Hm, drop_0.
  by rewrite lookup_empty.
Qed.

(** The entries of a map of latest versions that are [null]. *)
Lemma null_entries_singleton (m : gmap string (option string)) (failing : string) :
  (∀ k, m !! k = Some None ↔ k = failing) →
  filter (λ kv, kv.2 = None) m = {[ failing := None ]}.
Proof.
  intros Hnull. apply map_eq. intros k.
  destruct (decide (k = failing)) as [->|Hne].
  - rewrite lookup_singleton_eq. apply map_lookup_filter_Some. split; [by apply Hnull|done].
  - rewrite lookup_singleton_ne by done. apply map_lookup_filter_None.
    destruct (m !! k) as [[v|]|] eqn:Hk; [right|left|left]; try done.
    + intros x [= <-]. done.
    + exfalso. apply Hne. by apply Hnull.
Qed.

Lemma filter_sizes_complement (m : gmap string (option string)) :
  size (filter (λ kv, kv.2 = None) m) + size (filter (λ kv, kv.2 ≠ None) m) = size m.
Proof.
  rewrite <- (map_filter_union_complement (λ kv, kv.2 = None) m) at 3.
  rewrite map_size_disj_union; [done|]. apply map_disjoint_filter_complement.
Qed.

Lemma size_of_entries {A} (m : gmap string A) (l : list string) (f : string → A) :
  (∀ k, m !! k = if decide (k ∈ l) then Some (f k) else None) →
  NoDup l → size m = length l.
Proof.
  intros Hm Hnd. rewrite <- (size_dom (D := gset string)).
  assert (dom m = list_to_set l) as ->.
  { apply set_eq. intros k. rewrite elem_of_dom, elem_of_list_to_set, Hm.
    case_decide; split; try done; by intros [? ?]. }
  by apply size_list_to_set.
Qed.

(** C9: for every list of package names, whatever the registry answers,
    fetchLatestVersions returns normally (nothing is thrown, the world is
    as before) a map whose entries are exactly the requested names; a
    name whose lookup was rejected maps to [null], a name whose lookup
    brought a version maps to that version (a fulfilled lookup without a
    usable version is stored as [null] too).  In particular, for ten
    distinct names of which exactly one has no version, the map has
    exactly one [null] entry and nine populated entries. *)
Theorem fetchLatestVersions_contains_failures (w : World) (packageNames : list string) :
  ∃ latestVersions,
    fetchLatestVersions packageNames w = (JS.Normal latestVersions, w) ∧
    (∀ name, name ∈ packageNames ↔ is_Some (latestVersions !! name)) ∧
    (∀ name, name ∈ packageNames →
       latestVersions !! name = Some (storedVersion (registry w name))) ∧
    (∀ name message, name ∈ packageNames → registry w name = JS.Throw message →
       latestVersions !! name = Some None) ∧
    (∀ name value, name ∈ packageNames → registry w name = JS.Normal (Some value) →
       JS.truthy value = true → latestVersions !! name = Some (Some value)) ∧
    (∀ failing, length packageNames = 10 → NoDup packageNames → failing ∈ packageNames →
       (∀ name, name ∈ packageNames →
          storedVersion (registry w name) = None ↔ name = failing) →
       size (filter (λ kv, kv.2 = None) latestVersions) = 1 ∧
       size (filter (λ kv, kv.2 ≠ None) latestVersions) = 9).
Proof.
  destruct (fetchLatestVersions_spec w packageNames) as (m & Hrun & Hm).
  assert (Hin : ∀ name, name ∈ packageNames →
                        m !! name = Some (storedVersion (registry w name))).
  { intros name H. by rewrite Hm, decide_True. }
  exists m. split; [exact Hrun|]. split; [|split; [exact Hin|split; [|split]]].
  - intros name. rewrite Hm. case_decide; split; try done; by intros [? ?].
  - intros name message H Hreg. rewrite (Hin _ H), Hreg. done.
  - intros name value H Hreg Ht. rewrite (Hin _ H), Hreg. simpl. by rewrite Ht.
  - intros failing Hlen Hnd Hfail Honly.
    assert (Hone : size (filter (λ kv, kv.2 = None) m) = 1).
    { rewrite (null_entries_singleton m failing); [apply map_size_singleton|].
      intros k. rewrite Hm. case_decide as Hk.
      - rewrite <- (Honly k Hk). split; [by intros [= ->]|by intros ->].
      - split; [done|]. intros ->. done. }
    split; [exact Hone|].
    pose proof (filter_sizes_complement m) as Hsum.
    rewrite (size_of_entries m packageNames _ Hm Hnd), Hlen in Hsum. lia.
Qed.

Lemma fetchLatestVersions_ten_names_witness :
  ∃ latestVersions,
    fetchLatestVersions tenNames tenWorld = (JS.Normal latestVersions, tenWorld) ∧
    size (filter (λ kv, kv.2 = None) latestVersions) = 1 ∧
    size (filter (λ kv, kv.2 ≠ None) latestVersions) = 9.
Proof.
  destruct (fetchLatestVersions_contains_failures tenWorld tenNames)
    as (m & Hrun & _ & _ & _ & _ & Hten).
  exists m. split; [exact Hrun|].
  apply (Hten "left-pad"); [reflexivity| | |].
  - compute_done.
  - compute_done.
  - intros name Hname. simpl. case_bool_decide; simpl; split; try done.
Defined.

Example fetchLatestVersions_ten_names :
  (fetchLatestVersions tenNames tenWorld).1
  = JS.Normal (list_to_map ((λ name, (name, if bool_decide (name = "left-pad") then None
                                            else Some "1.0.0")) <$> tenNames)).
Proof. vm_compute. reflexivity. Qed.

(** ** The consolidated report *)

Lemma add_NaN_l (a : JS.number) : JS.add JS.NaN a = JS.NaN.
Proof. done. Qed.

Lemma add_NaN_r (a : JS.number) : JS.add a JS.NaN = JS.NaN.
Proof. by destruct a. Qed.

Lemma addReport_NaN (reports : list ReportEntry) :
  foldl addReport (JS.NaN, JS.NaN, JS.NaN, JS.NaN) reports = (JS.NaN, JS.NaN, JS.NaN, JS.NaN).
Proof. induction reports as [|r reports IH]; [done|]. simpl. exact IH. Qed.

Lemma addReport_Failed (reports : list ReportEntry) (t : JS.number * JS.number * JS.number * JS.number) :
  (∃ e, e ∈ reports ∧ is_Some (read_error e)) →
  foldl addReport t reports = (JS.NaN, JS.NaN, JS.NaN, JS.NaN).
Proof.
  revert t. induction reports as [|r reports IH]; intros t (e & He & Herr).
  { by apply elem_of_nil in He. }
  apply elem_of_cons in He as [<- | He].
  - destruct e as [?|p n msg]; [by destruct Herr|].
    destruct t as [[[a b] c] d]. simpl. rewrite !add_NaN_r. apply addReport_NaN.
  - simpl. apply IH. eauto.
Qed.

(** One entry without counters is enough to turn all four totals of the
    summary into [NaN]. *)
Lemma generateConsolidatedReport_with_failure (now : string) (reports : list ReportEntry) :
  (∃ e, e ∈ reports ∧ is_Some (read_error e)) →
  totals (summary (generateConsolidatedReport now reports))
  = [JS.NaN; JS.NaN; JS.NaN; JS.NaN].
Proof.
  intros H. unfold generateConsolidatedReport. by rewrite (addReport_Failed _ _ H).
Qed.

Lemma generateConsolidatedReport_sums (now : string) (reports : list RepoReport) :
  summary (generateConsolidatedReport now (Report <$> reports)) =
  {| repositoryCount := length reports;
     totalPackages := JS.Num (foldr Z.add 0%Z (Z.of_nat ∘ packageCount <$> reports));
     totalAutoUpdated := JS.Num (foldr Z.add 0%Z (Z.of_nat ∘ autoUpdateCount <$> reports));
     totalManualUpdateNeeded :=
       JS.Num (foldr Z.add 0%Z (Z.of_nat ∘ manualUpdateCount <$> reports));
     totalCurrent := JS.Num (foldr Z.add 0%Z (Z.of_nat ∘ currentCount <$> reports)) |}.
Proof.
  unfold generateConsolidatedReport.
  assert (H : ∀ a b c d,
    foldl addReport (JS.Num a, JS.Num b, JS.Num c, JS.Num d) (Report <$> reports) =
    (JS.Num (a + foldr Z.add 0 (Z.of_nat ∘ packageCount <$> reports)),
     JS.Num (b + foldr Z.add 0 (Z.of_nat ∘ autoUpdateCount <$> reports)),
     JS.Num (c + foldr Z.add 0 (Z.of_nat ∘ manualUpdateCount <$> reports)),
     JS.Num (d + foldr Z.add 0 (Z.of_nat ∘ currentCount <$> reports)))%Z).
  { induction reports as [|r reports IH]; intros a b c d; simpl.
    - by rewrite !Z.add_0_r.
    - rewrite IH. unfold compose. by rewrite <- !Z.add_assoc. }
  rewrite H. simpl. by rewrite length_fmap.
Qed.

(** C2: with two repositories discovered, of which the second fails
    manifest parsing, the consolidated report counts two repositories
    and its second entry is the object carrying the [error] field, but
    the entry's missing counters read as [undefined], and adding them
    turns each of the four totals into [NaN]: the failed entry does not
    contribute zero, and the counts of the successful repository (one
    package, one auto-updated) are lost. *)
Theorem consolidated_report_with_failed_repository :
  ∃ report w',
    @main Semver.semver7 twoRepositories "2025-08-29T17:00:00.000Z" twoWorld
      = (JS.Normal (Reported report), w') ∧
    repositoryCount (summary report) = 2 ∧
    (packageCount <$> (repositories report !! 0 ≫= λ e,
        match e with Report r => Some r | Failed _ _ _ => None end)) = Some 1 ∧
    (repositories report !! 1 ≫= read_error) =
      Some "Failed to read package.json at /broken/package.json: Unexpected token in JSON" ∧
    totals (summary report) = [JS.NaN; JS.NaN; JS.NaN; JS.NaN].
Proof. eexists _, _. split; [vm_compute; reflexivity|]. vm_compute. done. Qed.

(** ** The axios scenario, end to end *)

Lemma readPackageJson_run (p : string) (w : World) (packageJson : PackageJson) :
  files w !! p = Some (ManifestFile packageJson) →
  readPackageJson p w = (JS.Normal packageJson, w).
Proof.
  intros Hfile.
  unfold readPackageJson, try_catch, mbind, M_bind, readFile, parseManifest.
  by rewrite Hfile.
Qed.

Lemma fetchLatestVersions_axios (w : World) :
  registry w "axios" = JS.Normal (Some "0.21.4") →
  fetchLatestVersions ["axios"] w = (JS.Normal {[ "axios" := Some "0.21.4" ]}, w).
Proof.
  intros Hreg. destruct (fetchLatestVersions_spec w ["axios"]) as (m & -> & Hm).
  do 2 f_equal. apply map_eq. intros k. rewrite Hm.
  destruct (decide (k = "axios")) as [->|Hne].
  - rewrite decide_True by left. by rewrite Hreg, lookup_singleton_eq.
  - rewrite decide_False by (by intros ?%list_elem_of_singleton).
    by rewrite lookup_singleton_ne.
Qed.

Section Scenario.
Context {semver : Semver.SemverLib}.
Hypothesis parse_installed : Semver.parse "0.21.1" = Some (Semver.mkSemVer 0 21 1).
Hypothesis parse_latest : Semver.parse "0.21.4" = Some (Semver.mkSemVer 0 21 4).

Lemma compareVersions_axios :
  compareVersions (getInstalledVersions None (extractDependencies axiosManifest))
                  {[ "axios" := Some "0.21.4" ]}
  = {[ "axios" := mkComparison "0.21.1" (Some "0.21.4") patch true ]}.
Proof using parse_installed parse_latest.
  apply map_eq. intros k. rewrite compareVersions_lookup.
  change (getInstalledVersions None (extractDependencies axiosManifest))
    with (stripRange <$> ({[ "axios" := "^0.21.1" ]} ∪ ∅ : gmap string string)).
  rewrite (right_id_L ∅ (∪)), map_fmap_singleton.
  destruct (decide (k = "axios")) as [->|Hne].
  - rewrite !lookup_singleton_eq. simpl. f_equal.
    unfold compareEntry. simpl.
    assert (getUpdateType "0.21.1" "0.21.4" = patch) as ->; [|done].
    unfold getUpdateType. by rewrite parse_installed, parse_latest.
  - by rewrite !lookup_singleton_ne.
Qed.

(** C6 (amended): for the manifest declaring axios at ^0.21.1, with no
    lock artifact and a registry answering 0.21.4, the installed version
    resolves to 0.21.1 and is classified [patch] with [canAutoUpdate]
    true, the manifest entry is rewritten to ^0.21.4, and the report's
    auto-updated bucket holds exactly
    [axios: {from: 0.21.1, to: 0.21.4, updateType: patch}]: the exact
    versions, without caret. *)
Theorem axios_patch_scenario (w : World) (path packageJsonPath : string)
    (repositoryReports : list ReportEntry) :
  files w !! packageJsonPath = Some (ManifestFile axiosManifest) →
  writable w packageJsonPath = true →
  registry w "axios" = JS.Normal (Some "0.21.4") →
  compareVersions (getInstalledVersions None (extractDependencies axiosManifest))
                  {[ "axios" := Some "0.21.4" ]} !! "axios"
    = Some (mkComparison "0.21.1" (Some "0.21.4") patch true) ∧
  ∃ report w',
    processNpmRepository path packageJsonPath None repositoryReports w
      = (JS.Normal (repositoryReports ++ [Report report]), w') ∧
    files w' !! packageJsonPath
      = Some (ManifestFile (mkPackageJson (Some {[ "axios" := "^0.21.4" ]}) None None)) ∧
    autoUpdated report = true ∧
    autoUpdatePackages report = {[ "axios" := mkChange "0.21.1" (Some "0.21.4") patch ]}.
Proof using parse_installed parse_latest.
  intros Hfile Hw Hreg.
  split; [by rewrite compareVersions_axios, lookup_singleton_eq|].
  unfold processNpmRepository, mbind, M_bind.
  rewrite (readPackageJson_run _ _ _ Hfile).
  unfold mret at 1, M_ret at 1.
  change ((map_to_list (extractDependencies axiosManifest)).*1) with ["axios"].
  cbn [length Nat.eqb].
  rewrite (fetchLatestVersions_axios _ Hreg), compareVersions_axios.
  change (getAutoUpdatePackages _) with axiosApproved.
  change (0 <? size axiosApproved) with true. cbn beta iota.
  rewrite (updatePackages_run path packageJsonPath None axiosApproved w axiosManifest
                              eq_refl Hfile Hw).
  eexists _, _. split; [reflexivity|]. simpl.
  split; [by rewrite lookup_insert_eq|]. split; reflexivity.
Qed.
End Scenario.

Lemma axios_patch_scenario_witness :
  ∃ report w',
    @processNpmRepository Semver.semver7 "/repo" "/repo/package.json" None [] axiosWorld
      = (JS.Normal [Report report], w') ∧
    files w' !! "/repo/package.json"
      = Some (ManifestFile (mkPackageJson (Some {[ "axios" := "^0.21.4" ]}) None None)) ∧
    autoUpdated report = true ∧
    autoUpdatePackages report = {[ "axios" := mkChange "0.21.1" (Some "0.21.4") patch ]}.
Proof.
  exact (proj2 (@axios_patch_scenario Semver.semver7 eq_refl eq_refl axiosWorld
                  "/repo" "/repo/package.json" [] eq_refl eq_refl eq_refl)).
Defined.

(** C6, as stated, fails in its last part: the entry of the
    auto-updated bucket carries the exact versions 0.21.1 and 0.21.4,
    not the caret ranges ^0.21.1 and ^0.21.4. *)
Lemma axios_bucket_entry_counterexample :
  ∃ report w',
    @processNpmRepository Semver.semver7 "/repo" "/repo/package.json" None [] axiosWorld
      = (JS.Normal [Report report], w') ∧
    autoUpdatePackages report !! "axios" = Some (mkChange "0.21.1" (Some "0.21.4") patch) ∧
    autoUpdatePackages report !! "axios" ≠ Some (mkChange "^0.21.1" (Some "^0.21.4") patch).
Proof.
  eexists _, _. split; [vm_compute; reflexivity|].
  split; [vm_compute; reflexivity|]. vm_compute. discriminate.
Qed.

(** ** The policy invariant holds for what the version checks produce *)

Lemma compareVersions_policyInvariant {semver : Semver.SemverLib}
    (installedVersions : gmap string string) (latestVersions : gmap string (option string)) :
  policyInvariant (compareVersions installedVersions latestVersions).
Proof.
  intros name r. rewrite compareVersions_lookup.
  destruct (installedVersions !! name) as [i|]; simpl; [|done].
  intros [= <-]. apply compareEntry_canAutoUpdate.
Qed.

Lemma go_results_policyInvariant {semver : Semver.SemverLib}
    (installed latest : string) :
  policyInvariant
    {[ "go" := mkComparison installed (Some latest)
                 (go_updateType (checkGoVersionUpdate installed latest))
                 (go_canAutoUpdate (checkGoVersionUpdate installed latest)) ]}.
Proof.
  apply map_Forall_singleton. simpl. apply checkGoVersionUpdate_canAutoUpdate.
Qed.

(** The blocks of a go.mod are read after all its single-line
    declarations, so a block entry wins over a single-line declaration
    that stands later in the text. *)
Example parseGoMod_block_read_last :
  requires (parseGoMod blockThenLineGoMod) !! "github.com/a/b" = Some "1.0.0".
Proof. vm_compute. reflexivity. Qed.

(* ================================================================== *)
(** * Part III: further properties of the code                         *)
(* ================================================================== *)

Set Warnings "-clear-no-such-hyp".

(** ** analyzer.js *)

(** X1: extractDependencies merges the three sections with the later
    one winning: a name maps to the value of optionalDependencies when
    that section holds it, else to the one of devDependencies, else to
    the one of dependencies, and is absent when no section holds it. *)
Theorem extractDependencies_lookup (packageJson : PackageJson) (name : string) :
  extractDependencies packageJson !! name =
  match sectionValue (optionalDependencies packageJson) name with
  | Some v => Some v
  | None =>
      match sectionValue (devDependencies packageJson) name with
      | Some v => Some v
      | None => sectionValue (dependencies packageJson) name
      end
  end.
Proof.
  unfold extractDependencies, assign, sectionValue.
  destruct packageJson as [[d|] [e|] [o|]]; simpl;
    rewrite ?lookup_union, ?lookup_empty;
    repeat match goal with |- context [?m !! name] => destruct (m !! name) end; done.
Qed.

Lemma stripRange_operatorFree (range : string) : operatorFree (stripRange range) = true.
Proof.
  induction range as [|c t IH]; [done|]. simpl.
  destruct (is_range_operator c) eqn:Hc; [done|]. simpl. by rewrite Hc.
Qed.

Lemma stripRange_id (range : string) : operatorFree range = true → stripRange range = range.
Proof.
  induction range as [|c t IH]; [done|]. simpl.
  destruct (is_range_operator c); simpl; [done|]. intros H. by rewrite IH.
Qed.

(** X2: the fallback version leaves no range operator behind, keeps a
    string without operators as it is, and stripping twice is stripping
    once. *)
Theorem stripRange_removes_operators (range : string) :
  operatorFree (stripRange range) = true ∧
  stripRange (stripRange range) = stripRange range ∧
  (operatorFree range = true → stripRange range = range).
Proof.
  split; [apply stripRange_operatorFree|]. split; [|apply stripRange_id].
  apply stripRange_id, stripRange_operatorFree.
Qed.

(** X3: with no lock every declared name, and no other, gets the
    declared range without range operators; with a lock that has a
    [dependencies] section (even if it has [packages] too) every
    declared name gets the version pinned under its own name, and with
    a lock that has only [packages] the one pinned under
    [node_modules/<name>]; a name the section does not pin (no entry,
    no version, an empty version) falls back to the stripped range. *)
Theorem getInstalledVersions_supported (deps : gmap string string) (name : string) :
  getInstalledVersions None deps !! name = stripRange <$> deps !! name ∧
  (∀ section packages,
     getInstalledVersions (Some (mkPackageLock (Some section) packages)) deps !! name =
     (λ range, default (stripRange range) (lockedVersion section name)) <$> deps !! name) ∧
  (∀ section,
     getInstalledVersions (Some (mkPackageLock None (Some section))) deps !! name =
     (λ range, default (stripRange range)
                       (lockedVersion section ("node_modules/" +:+ name))) <$> deps !! name).
Proof.
  split; [apply (getInstalledVersions_lookup None)|]. split.
  - intros section packages.
    apply (getInstalledVersions_lookup (Some (mkPackageLock (Some section) packages))).
  - intros section.
    apply (getInstalledVersions_lookup (Some (mkPackageLock None (Some section)))).
Qed.

(** X4: readPackageLock never throws and never changes the world; it
    returns a lock exactly when a path is given and the file at that
    path parses as a lock artifact, and [null] otherwise (no path, no
    file, or a file that is not a lock). *)
Theorem readPackageLock_never_throws (packageLockPath : option string) (w : World) :
  ∃ result,
    readPackageLock packageLockPath w = (JS.Normal result, w) ∧
    ∀ lock, result = Some lock ↔
            ∃ p, packageLockPath = Some p ∧ files w !! p = Some (LockFile lock).
Proof.
  unfold readPackageLock. destruct packageLockPath as [p|].
  - unfold try_catch, mbind, M_bind, readFile, parseLock, throw, mret, M_ret.
    destruct (files w !! p) as [[pj|l|t]|] eqn:Hfile; simpl;
      eexists; (split; [reflexivity|]); intros lock; split;
      try (intros [= <-]); try (intros (p' & [= <-] & H); rewrite Hfile in H);
      try done; try (by injection H as <-); eauto.
  - eexists. split; [reflexivity|]. intros lock. split; [done|].
    by intros (p & ? & _).
Qed.

(** ** comparator.js *)

Section ComparatorFacts.
Context {semver : Semver.SemverLib}.

(** X5: compareVersions answers for exactly the installed names, each
    entry repeating the installed version.  A name whose latest version
    is missing, [null] or empty is [unknown], not auto-updatable, with
    [latest: null]; a name whose latest version is the installed string
    itself is [current]; every other answer is the one of getUpdateType
    on the two strings. *)
Theorem compareVersions_entries (installedVersions : gmap string string)
    (latestVersions : gmap string (option string)) (name : string) :
  match installedVersions !! name with
  | None => compareVersions installedVersions latestVersions !! name = None
  | Some i =>
      ∃ r, compareVersions installedVersions latestVersions !! name = Some r ∧
           installed r = i ∧
           match latestVersions !! name with
           | Some (Some l) =>
               if JS.truthy l then
                 latest r = Some l ∧
                 updateType r = (if bool_decide (i = l) then current else getUpdateType i l)
               else r = mkComparison i None unknown false
           | _ => r = mkComparison i None unknown false
           end
  end.
Proof.
  rewrite compareVersions_lookup.
  destruct (installedVersions !! name) as [i|]; simpl; [|done].
  eexists. split; [reflexivity|]. unfold compareEntry.
  destruct (latestVersions !! name) as [[l|]|]; simpl; try done.
  destruct (JS.truthy l); simpl; [|done]. by case_bool_decide.
Qed.

(** X6: the versions handed to the updater.  Of the comparator's own
    results, getAutoUpdatePackages keeps a name exactly when it is
    installed, the registry's latest version for it is a non-empty
    string other than the installed one, and getUpdateType classifies
    the pair as [patch]; the value kept is that latest version.  No
    such name is in the manual list, whose entries are the [minor] and
    [major] ones. *)
Theorem getAutoUpdatePackages_of_compareVersions (installedVersions : gmap string string)
    (latestVersions : gmap string (option string)) (name v : string) :
  (getAutoUpdatePackages (compareVersions installedVersions latestVersions) !! name = Some v ↔
   ∃ i, installedVersions !! name = Some i ∧ latestVersions !! name = Some (Some v) ∧
        JS.truthy v = true ∧ i ≠ v ∧ getUpdateType i v = patch) ∧
  (is_Some (getAutoUpdatePackages (compareVersions installedVersions latestVersions) !! name) →
   getManualUpdatePackages (compareVersions installedVersions latestVersions) !! name = None) ∧
  (∀ m, getManualUpdatePackages (compareVersions installedVersions latestVersions) !! name
         = Some m → manual_updateType m = minor ∨ manual_updateType m = major).
Proof.
  unfold getAutoUpdatePackages, getManualUpdatePackages.
  rewrite !lookup_omap, compareVersions_lookup.
  destruct (installedVersions !! name) as [i|]; simpl;
    [|by repeat split; try done; naive_solver].
  unfold compareEntry.
  destruct (latestVersions !! name) as [[l|]|]; simpl;
    [|by repeat split; try done; naive_solver..].
  destruct (JS.truthy l) eqn:Ht; simpl.
  2:{ repeat split; try done. intros (? & _ & [= <-] & ? & _). congruence. }
  case_bool_decide as Heq; simpl.
  { repeat split; try done. intros (? & [= <-] & [= <-] & _ & Hne & _). done. }
  case_bool_decide as Hp; simpl.
  - rewrite Hp. simpl. repeat split; try done.
    + intros [= <-]. by exists i.
    + by intros (? & _ & [= <-] & _).
  - repeat split; try done.
    + intros (? & [= <-] & [= <-] & _ & _ & Hp'). done.
    + intros m. destruct (getUpdateType i l); simpl; intros [= <-]; simpl; auto.
Qed.
End ComparatorFacts.

Lemma getAutoUpdatePackages_witness :
  getManualUpdatePackages
    (@compareVersions Semver.semver7 {[ "axios" := "0.21.1" ]} {[ "axios" := Some "0.21.4" ]})
    !! "axios" = None.
Proof.
  apply (@getAutoUpdatePackages_of_compareVersions Semver.semver7
           {[ "axios" := "0.21.1" ]} {[ "axios" := Some "0.21.4" ]} "axios" "0.21.4").
  vm_compute. eauto.
Defined.

(** ** updater.js *)








(** ** go-updater.js *)

Lemma try_catch_never_throws {A} (c : M A) (h : string → A) (w : World) :
  ∃ a w', try_catch c (λ message, mret (h message)) w = (JS.Normal a, w').
Proof. unfold try_catch. destruct (c w) as [[a|e] w']; by eexists _, _. Qed.




(** ** reporter.js *)

(** X11: for every map of comparison results, whatever its entries,
    no name is in two buckets of the report, every name of a bucket is a
    name of the results, and the three bucket counts and the number of
    entries that enter no bucket add up to [packageCount]; so the
    bucket counts never exceed it. *)
Theorem generateRepositoryReport_bucket_counts (repository : Repository)
    (results : gmap string ComparisonResult) (updateResults : option UpdateResults) :
  let report := generateRepositoryReport repository results updateResults in
  autoUpdateCount report + manualUpdateCount report + currentCount report
  + size (filter (λ kv, dropped kv.2 = true) results) = packageCount report ∧
  ∀ name,
    (is_Some (autoUpdatePackages report !! name) → is_Some (results !! name) ∧
       manualUpdatePackages report !! name = None ∧ currentPackages report !! name = None) ∧
    (is_Some (manualUpdatePackages report !! name) → is_Some (results !! name) ∧
       currentPackages report !! name = None) ∧
    (is_Some (currentPackages report !! name) → is_Some (results !! name)).
Proof.
  intros report.
  destruct (categorizeAll_buckets results) as (Hc & Ha & Hm).
  assert (Hcur : currentPackages report = omap currentEntry results) by exact Hc.
  assert (Haut : autoUpdatePackages report = omap autoEntry results) by exact Ha.
  assert (Hman : manualUpdatePackages report = omap manualEntry results) by exact Hm.
  split.
  { unfold report; simpl. rewrite Hc, Ha, Hm. apply bucket_sizes. }
  intros name. rewrite Hcur, Haut, Hman, !lookup_omap.
  destruct (results !! name) as [r|]; simpl.
  2:{ repeat split; try done. }
  unfold currentEntry, autoEntry, manualEntry.
  destruct (bool_decide (updateType r = current)), (canAutoUpdate r),
    (bool_decide (updateType r = minor) || bool_decide (updateType r = major));
    repeat split; try done; try intros ?;
    match goal with H : is_Some None |- _ => by apply is_Some_None in H end.
Qed.

(** X12: the totals of the consolidated report.  When every entry is a
    repository report, [repositoryCount] is their number, each total is
    the sum of the corresponding counter and the entries are kept in
    order.  As soon as one entry is a failure object (it has an [error]
    and no counters), all four totals are [NaN], whatever the other
    entries are. *)
Theorem generateConsolidatedReport_totals (now : string) :
  (∀ reports : list RepoReport,
     let report := generateConsolidatedReport now (Report <$> reports) in
     timestamp report = now ∧
     repositories report = Report <$> reports ∧
     repositoryCount (summary report) = length reports ∧
     totals (summary report) =
       [JS.Num (foldr Z.add 0%Z (Z.of_nat ∘ packageCount <$> reports));
        JS.Num (foldr Z.add 0%Z (Z.of_nat ∘ autoUpdateCount <$> reports));
        JS.Num (foldr Z.add 0%Z (Z.of_nat ∘ manualUpdateCount <$> reports));
        JS.Num (foldr Z.add 0%Z (Z.of_nat ∘ currentCount <$> reports))]) ∧
  (∀ entries : list ReportEntry,
     (∃ e, e ∈ entries ∧ is_Some (read_error e)) →
     repositoryCount (summary (generateConsolidatedReport now entries)) = length entries ∧
     totals (summary (generateConsolidatedReport now entries))
       = [JS.NaN; JS.NaN; JS.NaN; JS.NaN]).
Proof.
  split.
  - intros reports report. unfold report, totals.
    rewrite generateConsolidatedReport_sums. simpl.
    repeat split; unfold generateConsolidatedReport;
      by destruct (foldl addReport _ _) as [[[? ?] ?] ?].
  - intros entries H. split; [|by apply generateConsolidatedReport_with_failure].
    unfold generateConsolidatedReport. by destruct (foldl addReport _ _) as [[[? ?] ?] ?].
Qed.

(** ** index.js *)

Lemma readPackageLock_world (packageLockPath : option string) (w : World) :
  ∃ lock, readPackageLock packageLockPath w = (JS.Normal lock, w).
Proof.
  unfold readPackageLock. destruct packageLockPath as [p|]; [|by eexists].
  unfold try_catch, mbind, M_bind, readFile, parseLock, throw, mret, M_ret.
  destruct (files w !! p) as [[pj|l|t]|]; by eexists.
Qed.

Lemma readPackageJson_fails (p : string) (w : World) :
  (∀ packageJson, files w !! p ≠ Some (ManifestFile packageJson)) →
  ∃ message,
    readPackageJson p w =
    (JS.Throw ("Failed to read package.json at " +:+ p +:+ ": " +:+ message), w).
Proof.
  intros Hno.
  unfold readPackageJson, try_catch, mbind, M_bind, readFile, parseManifest, throw.
  destruct (files w !! p) as [[pj|l|t]|] eqn:Hfile; try (by eexists).
  by destruct (Hno pj).
Qed.

Lemma updatePackages_Normal (path p : string) (lock : option string)
    (pkgs : gmap string string) (w : World) :
  ∃ r w', updatePackages path p lock pkgs w = (JS.Normal r, w').
Proof.
  unfold updatePackages. destruct (size pkgs =? 0); [by eexists _, _|].
  apply (try_catch_never_throws _ (λ message, NpmUpdateResults path false None (Some message) None ∅)).
Qed.

Lemma goUpdater_updateGoVersion_Normal (path p v : string) (w : World) :
  ∃ r w', goUpdater_updateGoVersion path p v w = (JS.Normal r, w').
Proof.
  apply (try_catch_never_throws _ (λ message, GoUpdateResults false false false (Some message))).
Qed.

Lemma extractDependencies_no_names (packageJson : PackageJson) :
  (length (map_to_list (extractDependencies packageJson)).*1 =? 0) = true ↔
  extractDependencies packageJson = ∅.
Proof.
  rewrite Nat.eqb_eq, length_fmap. split.
  - intros H. by apply map_to_list_empty_iff, nil_length_inv.
  - intros ->. by rewrite map_to_list_empty.
Qed.

Section DriverFacts.
Context {semver : Semver.SemverLib}.






(** X14: a repository whose package.json cannot be read or parsed does
    not stop the run: its entry is the object with the repository's
    path, the last component of the path as name and the error message
    of readPackageJson; the reports collected so far are kept and
    nothing in the world changes. *)
Theorem processRepository_unreadable_manifest (reports : list ReportEntry)
    (path p : string) (lock : option string) (w : World) :
  (∀ packageJson, files w !! p ≠ Some (ManifestFile packageJson)) →
  ∃ message,
    processRepository reports (NpmRepository path p lock) w =
    (JS.Normal (reports ++
                [Failed path (basename path)
                        ("Failed to read package.json at " +:+ p +:+ ": " +:+ message)]),
     w).
Proof.
  intros Hno. destruct (readPackageJson_fails p w Hno) as [message Hread].
  exists message.
  unfold processRepository, try_catch, processNpmRepository, mbind, M_bind.
  by rewrite Hread.
Qed.

(** X15: a repository whose package.json declares no dependency in any
    of the three sections gets no entry at all: the reports are returned
    as they were, no lookup is made and nothing is written, so such a
    repository is not counted in [repositoryCount]. *)
Theorem processRepository_without_dependencies (reports : list ReportEntry)
    (path p : string) (lock : option string) (w : World) (packageJson : PackageJson) :
  files w !! p = Some (ManifestFile packageJson) →
  extractDependencies packageJson = ∅ →
  processRepository reports (NpmRepository path p lock) w = (JS.Normal reports, w).
Proof.
  intros Hfile Hempty.
  unfold processRepository, try_catch, processNpmRepository, mbind, M_bind.
  rewrite (readPackageJson_run p w packageJson Hfile).
  assert (Hlock : ∃ l, match lock with
                       | Some p0 => readPackageLock (Some p0)
                       | None => mret None
                       end w = (JS.Normal l, w)).
  { destruct lock; [apply readPackageLock_world|by eexists]. }
  destruct Hlock as [l ->].
  by rewrite (proj2 (extractDependencies_no_names packageJson) Hempty).
Qed.
End DriverFacts.

Lemma processRepository_unreadable_manifest_witness :
  ∃ message,
    @processRepository Semver.semver7 [] (NpmRepository "/broken" "/broken/package.json" None)
                       twoWorld =
    (JS.Normal [Failed "/broken" "broken"
                  ("Failed to read package.json at /broken/package.json: " +:+ message)],
     twoWorld).
Proof.
  apply (@processRepository_unreadable_manifest Semver.semver7 []
           "/broken" "/broken/package.json" None twoWorld).
  intros packageJson. vm_compute. discriminate.
Defined.

Lemma processRepository_without_dependencies_witness :
  @processRepository Semver.semver7 [] (NpmRepository "/repo" "/repo/package.json" None)
    (mkWorld {[ "/repo/package.json" := ManifestFile (mkPackageJson (Some ∅) None None) ]}
             (λ _, true) (λ _, JS.Throw "offline") (λ _, true) (λ _, true))
  = (JS.Normal [],
     mkWorld {[ "/repo/package.json" := ManifestFile (mkPackageJson (Some ∅) None None) ]}
             (λ _, true) (λ _, JS.Throw "offline") (λ _, true) (λ _, true)).
Proof.
  apply (@processRepository_without_dependencies Semver.semver7 []
           "/repo" "/repo/package.json" None _ (mkPackageJson (Some ∅) None None));
    reflexivity.
Defined.

(** ** The Go path of the driver *)

Lemma readGoMod_world (p : string) (w : World) :
  ∃ c, readGoMod p w = (c, w) ∧
       ∀ content, files w !! p = Some (TextFile content) →
                  c = JS.Normal (parseGoMod content).
Proof.
  unfold readGoMod, try_catch, mbind, M_bind, readFile, throw, mret, M_ret.
  destruct (files w !! p) as [[pj|l|content]|]; eexists; split; try reflexivity;
    intros ? [=]; by subst.
Qed.

Section GoFacts.
Context {semver : Semver.SemverLib}.

Lemma checkGoVersionUpdate_patch_zero (currentVersion latestVersion : string)
    (l : Semver.SemVer) :
  Semver.coerce latestVersion = Some l → Semver.patch l = 0%N →
  go_canAutoUpdate (checkGoVersionUpdate currentVersion latestVersion) = false.
Proof.
  intros Hl Hzero. unfold checkGoVersionUpdate. rewrite Hl.
  destruct (Semver.coerce currentVersion) as [c|]; [|done].
  destruct (Semver.eq c l); [done|].
  destruct (Semver.major c <? Semver.major l)%N; [done|].
  destruct (Semver.minor c <? Semver.minor l)%N; [done|].
  rewrite Hzero. by destruct (N.ltb_spec (Semver.patch c) 0); [lia|].
Qed.

Hypothesis coerce_latest :
  Semver.coerce getLatestGoVersion = Some (Semver.mkSemVer 1 22 0).

(** X16: with the latest Go version the code has built in (1.22.0,
    whose patch component is 0) no go.mod is ever rewritten: the version
    check cannot answer [patch], so processing a Go repository leaves
    the world as it was, whatever the go.mod says; a readable go.mod
    gets a report with the single entry "go", not auto-updated and
    without update results. *)
Theorem processRepository_go_never_rewrites (reports : list ReportEntry)
    (path p : string) (w : World) :
  ∃ rs,
    processRepository reports (GoRepository path p) w = (JS.Normal rs, w) ∧
    ∀ content, files w !! p = Some (TextFile content) →
      ∃ r, rs = reports ++ [Report r] ∧
           packageCount r = 1 ∧ autoUpdated r = false ∧
           autoUpdatePackages r = ∅ ∧ report_updateResults r = None.
Proof using coerce_latest.
  unfold processRepository, try_catch, processGoRepository, mbind, M_bind.
  destruct (readGoMod_world p w) as (c & -> & Hc).
  destruct c as [goMod|e].
  - rewrite (checkGoVersionUpdate_patch_zero (go goMod) getLatestGoVersion _
               coerce_latest eq_refl).
    unfold mret, M_ret. eexists. split; [reflexivity|].
    intros content Hfile. eexists. split; [reflexivity|].
    unfold generateRepositoryReport. simpl.
    destruct (categorizeAll_buckets
                {[ "go" := mkComparison (go goMod) (Some getLatestGoVersion)
                             (go_updateType (checkGoVersionUpdate (go goMod) getLatestGoVersion))
                             false ]}) as (_ & Ha & _).
    rewrite Ha, map_size_singleton, omap_singleton. unfold autoEntry. simpl.
    by destruct (bool_decide _).
  - eexists. split; [reflexivity|]. intros content Hfile.
    specialize (Hc content Hfile). discriminate.
Qed.
End GoFacts.

Lemma processRepository_go_witness :
  ∃ rs,
    @processRepository Semver.semver7 [] (GoRepository "/svc" "/svc/go.mod")
      (mkWorld {[ "/svc/go.mod" := TextFile blockGoMod ]}
               (λ _, true) (λ _, JS.Throw "offline") (λ _, true) (λ _, true))
    = (JS.Normal rs,
       mkWorld {[ "/svc/go.mod" := TextFile blockGoMod ]}
               (λ _, true) (λ _, JS.Throw "offline") (λ _, true) (λ _, true)) ∧
    ∃ r, rs = [Report r] ∧ packageCount r = 1 ∧ autoUpdated r = false ∧
         autoUpdatePackages r = ∅ ∧ report_updateResults r = None.
Proof.
  destruct (@processRepository_go_never_rewrites Semver.semver7 eq_refl []
              "/svc" "/svc/go.mod"
              (mkWorld {[ "/svc/go.mod" := TextFile blockGoMod ]}
                       (λ _, true) (λ _, JS.Throw "offline") (λ _, true) (λ _, true)))
    as (rs & Hrun & Hreport).
  exists rs. split; [exact Hrun|]. exact (Hreport blockGoMod eq_refl).
Defined.

(** ** config.js and scanner.js *)

Lemma split_on_nonempty (sep : ascii) (cur s : string) : JS.split_on sep cur s ≠ [].
Proof.
  revert cur. induction s as [|c t IH]; intros cur; simpl; [done|].
  by destruct (bool_decide (c = sep)).
Qed.

Section PathFacts.
Variable normalize : string → string.
Variable join : string → string → string.
Variable dirname : string → string.
Variable findFiles : string → string → list string.

(** X17: the two ways of naming repositories exclude each other, the
    first one present winning.  After config.init either [repoPaths] is
    not empty and [baseDir] is not set, or [repoPaths] is empty and
    [baseDir] is set; the second happens exactly when REPO_PATHS is
    unset or empty and BASE_DIR is not.  When REPO_PATHS is given,
    BASE_DIR has no influence on the configuration, hence none on what
    the scanner finds. *)
Theorem config_init_modes (env : gmap string string) (cwd : string) :
  let config := config_init normalize env cwd in
  ((repoPaths config ≠ [] ∧ baseDir config = None) ∨
   (repoPaths config = [] ∧ is_Some (baseDir config))) ∧
  (is_Some (baseDir config) ↔
   envValue env "REPO_PATHS" = None ∧ is_Some (envValue env "BASE_DIR")) ∧
  (is_Some (envValue env "REPO_PATHS") →
   ∀ dir w,
     config_init normalize (<["BASE_DIR" := dir]> env) cwd = config ∧
     findRepositories normalize join dirname findFiles
                      (config_init normalize (<["BASE_DIR" := dir]> env) cwd) w
     = findRepositories normalize join dirname findFiles config w).
Proof.
  unfold config_init.
  destruct (envValue env "REPO_PATHS") as [paths|] eqn:Hpaths; simpl.
  - split; [left; split; [|done]|split].
    + intros H%fmap_nil_inv. by apply split_on_nonempty in H.
    + split; [by intros [? [=]]|by intros [[=] _]].
    + intros _ dir w.
      assert (Henv : ∀ name, name ≠ "BASE_DIR" →
                envValue (<["BASE_DIR" := dir]> env) name = envValue env name).
      { intros name Hne. unfold envValue. by rewrite lookup_insert_ne. }
      rewrite (Henv "REPO_PATHS"), (Henv "REPORT_PATH"), (Henv "DOCUMENT_PATH"),
        (Henv "DOCUMENT_FORMAT"), Hpaths by done.
      by rewrite lookup_insert_ne.
  - destruct (envValue env "BASE_DIR") as [dir|]; simpl.
    + split; [right; split; [done|by eexists]|]. split; [|by intros [? [=]]].
      split; [by intros _; split; [|eexists]|by eexists].
    + split; [left; by split|]. split; [|by intros [? [=]]].
      split; [by intros [? [=]]|by intros [_ [? [=]]]].
Qed.

Lemma scanRepoPaths_inv (w : World) (paths : list string) (acc : list Repository)
    (Q : Repository → Prop) :
  (∀ repoPath pj gm,
     pj = normalize (join (normalize repoPath) "package.json") →
     gm = normalize (join (normalize repoPath) "go.mod") →
     repoPath ∈ paths →
     (pathExists w pj = true →
      ∀ lock, (∀ l, lock = Some l → pathExists w l = true) →
              Q (NpmRepository (normalize repoPath) pj lock)) ∧
     (pathExists w pj = false → pathExists w gm = true →
      Q (GoRepository (normalize repoPath) gm))) →
  Forall Q acc →
  Forall Q (foldl (scanRepoPath normalize join w) acc paths) ∧
  length (foldl (scanRepoPath normalize join w) acc paths) ≤ length acc + length paths.
Proof.
  revert acc. induction paths as [|repoPath paths IH]; intros acc HQ Hacc; simpl.
  { split; [done|lia]. }
  assert (Hstep : Forall Q (scanRepoPath normalize join w acc repoPath) ∧
                  length (scanRepoPath normalize join w acc repoPath) ≤ S (length acc)).
  { unfold scanRepoPath.
    destruct (HQ repoPath _ _ eq_refl eq_refl ltac:(left)) as [Hnpm Hgo].
    destruct (pathExists w (normalize (join (normalize repoPath) "package.json"))) eqn:Hpj.
    - split; [|rewrite length_app; simpl; lia].
      apply Forall_app. split; [done|]. apply Forall_singleton. apply Hnpm; [done|].
      intros l.
      destruct (pathExists w (normalize (join (normalize repoPath) "package-lock.json")))
        eqn:Hl; [by intros [= <-]|done].
    - destruct (pathExists w (normalize (join (normalize repoPath) "go.mod"))) eqn:Hgm.
      + split; [|rewrite length_app; simpl; lia].
        apply Forall_app. split; [done|]. apply Forall_singleton. by apply Hgo.
      + split; [done|lia]. }
  destruct Hstep as [Hstep Hlen].
  destruct (IH (scanRepoPath normalize join w acc repoPath)) as [HF HL]; [|done|].
  { intros rp pj gm ? ? Hin. apply HQ; [done..|by right]. }
  split; [done|lia].
Qed.

(** X18: scanning the configured paths.  At most one repository is
    found per path, under its normalized path; a repository is listed
    as npm only if its package.json exists (its lock artifact is named
    only if it exists too), and as Go only if it has a go.mod and no
    package.json: where both exist the npm reading wins. *)
Theorem findRepositories_repoPaths (config : Config) (w : World) :
  repoPaths config ≠ [] →
  let found := findRepositories normalize join dirname findFiles config w in
  length found ≤ length (repoPaths config) ∧
  Forall (λ repository,
            manifestExists w repository ∧
            (∃ repoPath, repoPath ∈ repoPaths config ∧
                         repo_path repository = normalize repoPath) ∧
            ∀ path goModPath, repository = GoRepository path goModPath →
              pathExists w (normalize (join path "package.json")) = false) found.
Proof.
  intros Hne found. unfold found, findRepositories.
  destruct (repoPaths config) as [|p ps] eqn:Hps; [done|]. cbn [length Nat.ltb Nat.leb].
  rewrite <- Hps.
  destruct (scanRepoPaths_inv w (repoPaths config) []
              (λ repository,
                 manifestExists w repository ∧
                 (∃ repoPath, repoPath ∈ repoPaths config ∧
                              repo_path repository = normalize repoPath) ∧
                 ∀ path goModPath, repository = GoRepository path goModPath →
                   pathExists w (normalize (join path "package.json")) = false))
    as [HF HL]; [|done|].
  2:{ split; [|done].
      assert (length (repoPaths config) = S (length ps)) by (by rewrite Hps).
      simpl in HL. lia. }
  intros repoPath pj gm -> -> Hin. split.
  - intros Hpj lock Hlock. split; [by split|]. split; [by exists repoPath|]. done.
  - intros Hpj Hgm. split; [done|]. split; [by exists repoPath|].
    by intros ? ? [= <- <-].
Qed.
Lemma scanPackageJson_fold (w : World) (found : list string) (acc : list Repository) :
  foldl (scanPackageJson normalize join dirname w) acc found =
  acc ++ ((λ p, NpmRepository (dirname (normalize p)) (normalize p)
                  (if pathExists w (normalize (join (dirname (normalize p))
                                                    "package-lock.json"))
                   then Some (normalize (join (dirname (normalize p)) "package-lock.json"))
                   else None)) <$> found).
Proof.
  revert acc. induction found as [|p found IH]; intros acc; simpl.
  - by rewrite app_nil_r.
  - rewrite IH. unfold scanPackageJson. by rewrite <- app_assoc.
Qed.

Lemma goPathsFresh_no_go (repositories : list Repository) :
  Forall (λ r, ∀ path goModPath, r ≠ GoRepository path goModPath) repositories →
  goPathsFresh repositories.
Proof.
  intros Hall i j path gm r _ Hj _.
  apply list_elem_of_lookup_2 in Hj.
  rewrite Forall_forall in Hall. by destruct (Hall _ Hj path gm).
Qed.

Lemma goPathsFresh_snoc (repositories : list Repository) (path goModPath : string) :
  goPathsFresh repositories →
  existsb (λ repo, bool_decide (repo_path repo = path)) repositories = false →
  goPathsFresh (repositories ++ [GoRepository path goModPath]).
Proof.
  intros Hfresh Hnew i j path' gm' r Hij Hj Hi.
  destruct (decide (j < length repositories)) as [Hlt|Hge].
  - rewrite lookup_app_l in Hj by done. rewrite lookup_app_l in Hi by lia.
    exact (Hfresh i j path' gm' r Hij Hj Hi).
  - assert (j = length repositories) as ->.
    { apply lookup_lt_Some in Hj. rewrite length_app in Hj. simpl in Hj. lia. }
    rewrite lookup_app_r, Nat.sub_diag in Hj by done. injection Hj as <- <-.
    rewrite lookup_app_l in Hi by done.
    intros Heq. apply not_true_iff_false in Hnew. apply Hnew.
    apply existsb_exists. exists r. split.
    + apply list_elem_of_In. by eapply list_elem_of_lookup_2.
    + by apply bool_decide_eq_true.
Qed.

Lemma scanGoMod_fold (found : list string) (acc : list Repository) :
  goPathsFresh acc →
  goPathsFresh (foldl (scanGoMod normalize dirname) acc found) ∧
  ∃ go, foldl (scanGoMod normalize dirname) acc found = acc ++ go ∧
        Forall (λ r, ∃ p, p ∈ found ∧
                          r = GoRepository (dirname (normalize p)) (normalize p)) go.
Proof.
  revert acc. induction found as [|p found IH]; intros acc Hfresh; simpl.
  { split; [done|]. exists []. by rewrite app_nil_r. }
  assert (Hstep : goPathsFresh (scanGoMod normalize dirname acc p) ∧
                  ∃ go, scanGoMod normalize dirname acc p = acc ++ go ∧
                        Forall (λ r, r = GoRepository (dirname (normalize p)) (normalize p))
                               go).
  { unfold scanGoMod.
    destruct (existsb _ acc) eqn:Hex; simpl.
    - split; [done|]. exists []. by rewrite app_nil_r.
    - split; [by apply goPathsFresh_snoc|]. eexists. split; [done|].
      by apply Forall_singleton. }
  destruct Hstep as (Hfresh1 & go1 & Heq1 & Hgo1).
  destruct (IH _ Hfresh1) as (Hfresh2 & go2 & Heq2 & Hgo2).
  split; [done|]. exists (go1 ++ go2). split.
  - by rewrite Heq2, Heq1, <- app_assoc.
  - apply Forall_app. split.
    + eapply Forall_impl; [exact Hgo1|]. intros r ->. exists p. split; [left|done].
    + eapply Forall_impl; [exact Hgo2|]. intros r (q & Hq & ->). exists q.
      split; [by right|done].
Qed.

(** X19: scanning a base directory.  Every package.json found gives
    an npm repository, in the order found, and these come first; the Go
    repositories follow, each from a go.mod found, and none of them
    shares its path with a repository listed before it: a directory
    holding both manifests is listed once, as npm. *)
Theorem findRepositories_baseDir (config : Config) (w : World) (dir : string) :
  repoPaths config = [] → baseDir config = Some dir → JS.truthy dir = true →
  let found := findRepositories normalize join dirname findFiles config w in
  goPathsFresh found ∧
  ∃ go,
    found =
      ((λ p, NpmRepository (dirname (normalize p)) (normalize p)
               (if pathExists w (normalize (join (dirname (normalize p))
                                                 "package-lock.json"))
                then Some (normalize (join (dirname (normalize p)) "package-lock.json"))
                else None)) <$> findFiles (normalize dir) "**/package.json") ++ go ∧
    Forall (λ r, ∃ p, p ∈ findFiles (normalize dir) "**/go.mod" ∧
                      r = GoRepository (dirname (normalize p)) (normalize p)) go.
Proof.
  intros Hpaths Hdir Htruthy found. unfold found, findRepositories.
  rewrite Hpaths, Hdir, Htruthy. cbn [length Nat.ltb Nat.leb].
  rewrite scanPackageJson_fold, app_nil_l.
  apply scanGoMod_fold, goPathsFresh_no_go, Forall_fmap, Forall_true.
  by intros p path gm.
Qed.

End PathFacts.

Lemma findRepositories_repoPaths_witness :
  length (findRepositories id joinSlash id (λ _ _, [])
            (config_init id {[ "REPO_PATHS" := "/repo, /broken ,/nowhere" ]} "/home")
            twoWorld) ≤ 3.
Proof.
  assert (Hne : repoPaths (config_init id {[ "REPO_PATHS" := "/repo, /broken ,/nowhere" ]}
                                       "/home") ≠ []).
  { vm_compute. discriminate. }
  exact (proj1 (findRepositories_repoPaths id joinSlash id (λ _ _, [])
                  (config_init id {[ "REPO_PATHS" := "/repo, /broken ,/nowhere" ]} "/home")
                  twoWorld Hne)).
Defined.

Example findRepositories_example :
  findRepositories id joinSlash id (λ _ _, [])
    (config_init id {[ "REPO_PATHS" := "/repo, /broken ,/nowhere" ]} "/home") twoWorld
  = twoRepositories.
Proof. vm_compute. reflexivity. Qed.

Lemma findRepositories_baseDir_witness :
  goPathsFresh
    (findRepositories id joinSlash (λ p, default "" (head (JS.split_on "/"%char EmptyString p)))
       (λ _ pattern, if bool_decide (pattern = "**/go.mod") then ["a/go.mod"; "b/go.mod"]
                     else ["a/package.json"])
       (mkConfig [] (Some "base") "r" "d" "markdown" true) twoWorld).
Proof.
  exact (proj1 (findRepositories_baseDir id joinSlash
                  (λ p, default "" (head (JS.split_on "/"%char EmptyString p)))
                  (λ _ pattern, if bool_decide (pattern = "**/go.mod")
                                then ["a/go.mod"; "b/go.mod"] else ["a/package.json"])
                  (mkConfig [] (Some "base") "r" "d" "markdown" true) twoWorld "base"
                  eq_refl eq_refl eq_refl)).
Defined.

Example findRepositories_baseDir_example :
  findRepositories id joinSlash (λ p, default "" (head (JS.split_on "/"%char EmptyString p)))
    (λ _ pattern, if bool_decide (pattern = "**/go.mod") then ["a/go.mod"; "b/go.mod"]
                  else ["a/package.json"])
    (mkConfig [] (Some "base") "r" "d" "markdown" true) twoWorld
  = [NpmRepository "a" "a/package.json" None; GoRepository "b" "b/go.mod"].
Proof. vm_compute. reflexivity. Qed.

(** ** The npm path of the driver *)

(** X20: what fetchLatestVersions returns depends only on which names
    are asked for: their order, repetitions and the way they fall into
    batches of ten make no difference. *)
Theorem fetchLatestVersions_order_irrelevant (names1 names2 : list string) (w : World) :
  (∀ name, name ∈ names1 ↔ name ∈ names2) →
  fetchLatestVersions names1 w = fetchLatestVersions names2 w.
Proof.
  intros Hsame.
  destruct (fetchLatestVersions_spec w names1) as (m1 & -> & Hm1).
  destruct (fetchLatestVersions_spec w names2) as (m2 & -> & Hm2).
  do 2 f_equal. apply map_eq. intros k. rewrite Hm1, Hm2.
  destruct (decide (k ∈ names1)) as [H1|H1], (decide (k ∈ names2)) as [H2|H2];
    try done; exfalso; [apply H2|apply H1]; by apply Hsame.
Qed.

Lemma fetchLatestVersions_order_witness :
  fetchLatestVersions ["axios"; "react"; "axios"] axiosWorld
  = fetchLatestVersions ["react"; "axios"] axiosWorld.
Proof.
  apply fetchLatestVersions_order_irrelevant.
  intros name. rewrite !elem_of_cons, !elem_of_nil. tauto.
Defined.

Section NpmDriverFacts.
Context {semver : Semver.SemverLib}.

Lemma compareVersions_all_unknown (installedVersions : gmap string string)
    (latestVersions : gmap string (option string)) :
  (∀ name, name ∈ dom installedVersions → latestVersions !! name = Some None) →
  getAutoUpdatePackages (compareVersions installedVersions latestVersions) = ∅ ∧
  categorizeAll (compareVersions installedVersions latestVersions) = mkBuckets ∅ ∅ ∅.
Proof.
  intros Hnull.
  assert (Hentry : ∀ name r,
            compareVersions installedVersions latestVersions !! name = Some r →
            updateType r = unknown ∧ canAutoUpdate r = false).
  { intros name r. rewrite compareVersions_lookup.
    destruct (installedVersions !! name) as [i|] eqn:Hi; simpl; [|done].
    rewrite Hnull by (apply elem_of_dom; eauto). by intros [= <-]. }
  split.
  - apply map_eq. intros name. unfold getAutoUpdatePackages.
    rewrite lookup_omap, lookup_empty.
    destruct (compareVersions _ _ !! name) as [r|] eqn:Hr; [|done]. simpl.
    by destruct (Hentry _ _ Hr) as [_ ->].
  - destruct (categorizeAll_buckets (compareVersions installedVersions latestVersions))
      as (Hc & Ha & Hm).
    destruct (categorizeAll _) as [a m c]. simpl in *. subst.
    f_equal; apply map_eq; intros name; rewrite lookup_omap, lookup_empty;
      (destruct (compareVersions _ _ !! name) as [r|] eqn:Hr; [|done]); simpl;
      destruct (Hentry _ _ Hr) as [Hu Hauto];
      unfold autoEntry, manualEntry, currentEntry; by rewrite Hu, ?Hauto.
Qed.

(** X21: when the registry cannot be reached for any declared name, a
    repository with a readable manifest and no lock artifact still gets
    its report: every declared name is counted in [packageCount], all
    three buckets are empty, nothing is marked as updated and nothing in
    the world changes. *)
Theorem processRepository_registry_down (reports : list ReportEntry)
    (path p : string) (w : World) (packageJson : PackageJson) :
  files w !! p = Some (ManifestFile packageJson) →
  extractDependencies packageJson ≠ ∅ →
  (∀ name, is_Some (extractDependencies packageJson !! name) →
           ∃ message, registry w name = JS.Throw message) →
  ∃ r,
    processRepository reports (NpmRepository path p None) w
      = (JS.Normal (reports ++ [Report r]), w) ∧
    packageCount r = size (extractDependencies packageJson) ∧
    autoUpdateCount r = 0 ∧ manualUpdateCount r = 0 ∧ currentCount r = 0 ∧
    autoUpdated r = false ∧ report_updateResults r = None.
Proof.
  intros Hfile Hne Hdown.
  unfold processRepository, try_catch, processNpmRepository, mbind, M_bind.
  rewrite (readPackageJson_run p w packageJson Hfile). unfold mret at 1, M_ret at 1.
  destruct (length (map_to_list (extractDependencies packageJson)).*1 =? 0) eqn:Hlen.
  { by apply extractDependencies_no_names in Hlen. }
  destruct (fetchLatestVersions_spec w (map_to_list (extractDependencies packageJson)).*1)
    as (lv & -> & Hlv).
  set (installedVersions := getInstalledVersions None (extractDependencies packageJson)).
  assert (Hnull : ∀ name, name ∈ dom installedVersions → lv !! name = Some None).
  { intros name Hin. unfold installedVersions in Hin. simpl in Hin.
    rewrite dom_fmap in Hin. apply elem_of_dom in Hin as Hin'.
    rewrite Hlv, decide_True.
    - destruct (Hdown name Hin') as [message ->]. done.
    - destruct Hin' as [v Hv]. apply list_elem_of_fmap.
      exists (name, v). split; [done|]. by apply elem_of_map_to_list. }
  destruct (compareVersions_all_unknown installedVersions lv Hnull) as [Hauto Hbuckets].
  rewrite Hauto. rewrite map_size_empty. cbn [Nat.ltb Nat.leb].
  unfold mret, M_ret. eexists. split; [reflexivity|].
  unfold generateRepositoryReport. rewrite Hbuckets. simpl.
  rewrite map_size_empty. repeat split.
  unfold compareVersions, installedVersions. simpl.
  rewrite <- (size_dom (D := gset string)), dom_imap_L
    with (X := dom (extractDependencies packageJson)).
  - by rewrite size_dom.
  - intros name. rewrite elem_of_dom, lookup_fmap. split.
    + intros [v Hv]. destruct (extractDependencies packageJson !! name) as [x|] eqn:Hx;
        [|done]. simpl in Hv. by exists (stripRange x).
    + intros (x & Hx & _).
      by destruct (extractDependencies packageJson !! name).
Qed.
End NpmDriverFacts.

Lemma processRepository_registry_down_witness :
  ∃ r,
    @processRepository Semver.semver7 [] (NpmRepository "/repo" "/repo/package.json" None)
      (mkWorld {[ "/repo/package.json" := ManifestFile axiosManifest ]}
               (λ _, true) (λ _, JS.Throw "offline") (λ _, true) (λ _, true))
    = (JS.Normal [Report r],
       mkWorld {[ "/repo/package.json" := ManifestFile axiosManifest ]}
               (λ _, true) (λ _, JS.Throw "offline") (λ _, true) (λ _, true)) ∧
    packageCount r = 1 ∧
    autoUpdateCount r = 0 ∧ manualUpdateCount r = 0 ∧ currentCount r = 0 ∧
    autoUpdated r = false ∧ report_updateResults r = None.
Proof.
  apply (@processRepository_registry_down Semver.semver7 [] "/repo" "/repo/package.json"
           (mkWorld {[ "/repo/package.json" := ManifestFile axiosManifest ]}
                    (λ _, true) (λ _, JS.Throw "offline") (λ _, true) (λ _, true))
           axiosManifest).
  - vm_compute. reflexivity.
  - intros H. apply (f_equal (λ m : gmap string string, m !! "axios")) in H.
    vm_compute in H. discriminate.
  - intros name _. by eexists.
Defined.

(** ** The matcher against the reference notions *)

Lemma string_app_cons (c : ascii) (a b : string) : String c a +:+ b = String c (a +:+ b).
Proof. reflexivity. Qed.

Lemma string_app_length (a b : string) :
  String.length (a +:+ b) = String.length a + String.length b.
Proof.
  induction a as [|c a IH]; [done|]. rewrite string_app_cons. simpl. by rewrite IH.
Qed.

Lemma string_app_assoc (a b c : string) : (a +:+ b) +:+ c = a +:+ (b +:+ c).
Proof. induction a as [|x a IH]; [done|]. rewrite !string_app_cons. by rewrite IH. Qed.

Lemma string_app_empty_r (a : string) : a +:+ "" = a.
Proof. induction a as [|x a IH]; [done|]. rewrite string_app_cons. by rewrite IH. Qed.

Lemma substring_prefix (pre s1 : string) :
  String.substring 0 (String.length pre) (pre +:+ s1) = pre.
Proof.
  induction pre as [|c pre IH]; [by destruct s1|].
  rewrite string_app_cons. simpl. by rewrite IH.
Qed.

Lemma consumed_app (pre s1 : string) : Regex.consumed (pre +:+ s1) s1 = pre.
Proof.
  unfold Regex.consumed. rewrite string_app_length.
  replace (String.length pre + String.length s1 - String.length s1)
    with (String.length pre) by lia.
  apply substring_prefix.
Qed.

Lemma capture_elem_of (i : nat) (cs : Regex.captures) (g : string) :
  Regex.capture i cs = Some g → (i, g) ∈ cs.
Proof.
  induction cs as [|[j s] cs IH]; simpl; [done|].
  destruct (i =? j) eqn:Hij.
  - apply Nat.eqb_eq in Hij as ->. intros [= ->]. apply elem_of_cons. by left.
  - intros H. apply elem_of_cons. right. by apply IH.
Qed.

Section MatcherFacts.
Context {R : Type}.
Variable total : nat.

Lemma matches_sound (r : Regex.regex) :
  ∀ (s : string) (cs : Regex.captures) (k : string → Regex.captures → option R) (x : R),
    Regex.matches total r s cs k = Some x →
    ∃ pre s1 cs1,
      s = pre +:+ s1 ∧ lang r pre ∧ k s1 cs1 = Some x ∧
      ∀ i g, (i, g) ∈ cs1 → (i, g) ∈ cs ∨ capturedBy r i g.
Proof.
  induction r as [|p|r1 IH1 r2 IH2|r1 IH1 r2 IH2|lo hi r1 IH1|j r1 IH1| |];
    intros s cs k x H.
  - exists "", s, cs. simpl in *. auto.
  - simpl in H. destruct s as [|c t]; [done|]. destruct (p c) eqn:Hp; [|done].
    exists (String c ""), t, cs. simpl. eauto 10.
  - simpl in H.
    apply IH1 in H as (pre1 & s1 & cs1 & -> & L1 & H & C1).
    apply IH2 in H as (pre2 & s2 & cs2 & -> & L2 & H & C2).
    exists (pre1 +:+ pre2), s2, cs2. split; [by rewrite string_app_assoc|].
    split; [simpl; eauto|]. split; [done|].
    intros i g Hin. simpl. destruct (C2 _ _ Hin) as [Hin'|]; [|by auto].
    destruct (C1 _ _ Hin'); auto.
  - simpl in H. destruct (Regex.matches total r1 s cs k) as [y|] eqn:E.
    + injection H as ->. apply IH1 in E as (pre & s1 & cs1 & -> & L & E & C).
      exists pre, s1, cs1. simpl. split; [done|]. split; [by left|]. split; [done|].
      intros i g Hin. destruct (C _ _ Hin); auto.
    + apply IH2 in H as (pre & s1 & cs1 & -> & L & E' & C).
      exists pre, s1, cs1. simpl. split; [done|]. split; [by right|]. split; [done|].
      intros i g Hin. destruct (C _ _ Hin); auto.
  - cbn [Regex.matches] in H.
    match type of H with
    | ?loop _ 0 s cs = Some x =>
        assert (Hloop : ∀ fuel n s cs, loop fuel n s cs = Some x →
                  ∃ pre s1 cs1 ss,
                    s = pre +:+ s1 ∧ pre = foldr String.append "" ss ∧
                    lo ≤ n + length ss ∧ within (n + length ss) (max n <$> hi) ∧
                    Forall (lang r1) ss ∧ k s1 cs1 = Some x ∧
                    ∀ i g, (i, g) ∈ cs1 → (i, g) ∈ cs ∨ capturedBy r1 i g)
    end.
    { clear H s cs. intros fuel. induction fuel as [|fuel IHfuel]; intros n s cs H;
        [done|]. cbn beta iota zeta fix in H.
      match type of H with
      | match ?more with _ => _ end = _ => destruct more as [y|] eqn:E
      end.
      - injection H as ->. destruct (Regex.below n hi) eqn:Hbelow; [|done].
        apply IH1 in E as (pre1 & s1 & cs1 & -> & L1 & E & C1).
        destruct ((n <? lo) || _); [|done].
        apply IHfuel in E as (pre2 & s2 & cs2 & ss & -> & -> & Hlo & Hhi & Hss & E & C2).
        exists (pre1 +:+ foldr String.append "" ss), s2, cs2, (pre1 :: ss).
        split; [by rewrite string_app_assoc|]. split; [done|].
        split; [simpl; lia|].
        split; [destruct hi as [h|]; [|done]; simpl in *;
                apply Nat.ltb_lt in Hbelow; lia|].
        split; [by constructor|]. split; [done|].
        intros i g Hin. destruct (C2 _ _ Hin) as [Hin'|]; [|by auto].
        destruct (C1 _ _ Hin'); auto.
      - destruct (lo <=? n) eqn:Hlo; [|done]. apply Nat.leb_le in Hlo.
        exists "", s, cs, []. simpl. repeat split; auto; [lia|].
        destruct hi as [h|]; [|done]. simpl. lia. }
    apply Hloop in H as (pre & s1 & cs1 & ss & -> & -> & Hlo & Hhi & Hss & E & C).
    exists (foldr String.append "" ss), s1, cs1. split; [done|].
    split; [|split; [done|]; intros i g Hin; simpl; auto].
    simpl. exists ss. repeat split; auto. destruct hi as [h|]; [|done]. simpl in *. lia.
  - simpl in H. apply IH1 in H as (pre & s1 & cs1 & -> & L & H & C).
    rewrite consumed_app in H.
    exists pre, s1, ((j, pre) :: cs1). split; [done|]. split; [done|]. split; [done|].
    intros i g Hin. simpl. apply elem_of_cons in Hin as [[= -> ->]|Hin]; [by auto|].
    destruct (C _ _ Hin); auto.
  - simpl in H. destruct (String.length s =? total); [|done].
    exists "", s, cs. simpl. auto.
  - simpl in H. destruct s; [|done]. exists "", "", cs. simpl. auto.
Qed.
End MatcherFacts.

Lemma search_sound (total : nat) (r : Regex.regex) :
  ∀ (s : string) (idx : nat) (m : Regex.match_result),
    Regex.search total r idx s = Some m →
    occursIn (Regex.matched m) s ∧ lang r (Regex.matched m) ∧
    ∀ i g, Regex.group i m = Some g → capturedBy r i g.
Proof.
  assert (Hhere : ∀ s s1 cs,
            Regex.matches total r s [] (λ s1 cs, Some (s1, cs)) = Some (s1, cs) →
            occursIn (Regex.consumed s s1) s ∧ lang r (Regex.consumed s s1) ∧
            ∀ i g, Regex.capture i cs = Some g → capturedBy r i g).
  { intros s s1 cs E.
    apply matches_sound in E as (pre & s1' & cs1 & -> & L & [= -> ->] & C).
    rewrite consumed_app. split; [by exists "", s1|]. split; [done|].
    intros i g Hg. apply capture_elem_of in Hg.
    destruct (C _ _ Hg) as [Hin|]; [|done]. by apply elem_of_nil in Hin. }
  induction s as [|c t IH]; intros idx m; simpl;
    destruct (Regex.matches total r _ [] _) as [[s1 cs]|] eqn:E; try done.
  - intros [= <-]. by apply Hhere.
  - intros [= <-]. by apply Hhere.
  - intros H. apply IH in H as ((pre & post & ->) & L & C).
    split; [by exists (String c pre), post|]. done.
Qed.

Lemma occursIn_suffix (x a t : string) : occursIn x t → occursIn x (a +:+ t).
Proof.
  intros (pre & post & ->). exists (a +:+ pre), post. by rewrite string_app_assoc.
Qed.

Lemma all_from_sound (total : nat) (r : Regex.regex) (fuel : nat) :
  ∀ s, Forall (λ m, occursIn (Regex.matched m) s ∧ lang r (Regex.matched m) ∧
                     ∀ i g, Regex.group i m = Some g → capturedBy r i g)
              (Regex.all_from fuel total r s).
Proof.
  induction fuel as [|fuel IH]; intros s; simpl; [constructor|].
  destruct (Regex.search total r 0 s) as [m|] eqn:E; [|constructor].
  pose proof (search_sound _ _ _ _ _ E) as (Hocc & L & C).
  constructor; [done|].
  destruct Hocc as (pre & post & Hs).
  assert (Hrest : ∃ a, s = a +:+ Regex.rest m).
  { clear -E. revert E. generalize 0. induction s as [|c t IHs]; intros idx; simpl;
      destruct (Regex.matches total r _ [] _) as [[s1 cs]|] eqn:E'; try done.
    - intros [= <-]. simpl.
      apply matches_sound in E' as (pre & s1' & cs1 & Hs & _ & [= -> ->] & _).
      by exists pre.
    - intros [= <-]. simpl.
      apply matches_sound in E' as (pre & s1' & cs1 & Hs & _ & [= -> ->] & _).
      by exists pre.
    - intros H. apply IHs in H as [a ->]. by exists (String c a). }
  destruct Hrest as [a Ha].
  assert (Hsub : ∀ t b, Regex.rest m = b +:+ t →
            Forall (λ m, occursIn (Regex.matched m) s ∧ lang r (Regex.matched m) ∧
                         ∀ i g, Regex.group i m = Some g → capturedBy r i g)
                   (Regex.all_from fuel total r t)).
  { intros t b Hb. eapply Forall_impl; [apply IH|].
    intros m' (Hocc' & L' & C'). split; [|done].
    rewrite Ha, Hb, <- string_app_assoc. by apply occursIn_suffix. }
  destruct (Regex.matched m), (Regex.rest m) as [|c t] eqn:Hr;
    try constructor.
  - by apply (Hsub t (String c "")).
  - by apply (Hsub "" "").
  - by apply (Hsub (String c t) "").
Qed.

(** ** What parseGoMod can record *)

Lemma allChars_app (p : ascii → bool) (a b : string) :
  allChars p (a +:+ b) = allChars p a && allChars p b.
Proof.
  induction a as [|c a IH]; [done|]. rewrite string_app_cons. simpl.
  by rewrite IH, andb_assoc.
Qed.

Lemma allChars_impl (p q : ascii → bool) (s : string) :
  (∀ c, p c = true → q c = true) → allChars p s = true → allChars q s = true.
Proof.
  intros Hpq. induction s as [|c t IH]; simpl; [done|].
  intros [Hc Ht]%andb_true_iff. by rewrite (Hpq c Hc), IH.
Qed.

Lemma allChars_rev_app (p : ascii → bool) (a b : string) :
  allChars p (String.rev_app a b) = allChars p a && allChars p b.
Proof.
  revert b. induction a as [|c a IH]; intros b; simpl; [done|].
  rewrite IH. simpl. by destruct (p c), (allChars p a).
Qed.

Lemma rev_app_rev_app (a b c : string) :
  String.rev_app (String.rev_app a b) c = String.rev_app b (a +:+ c).
Proof.
  revert b. induction a as [|x a IH]; intros b; simpl; [done|]. by rewrite IH.
Qed.

Lemma string_rev_involutive (a : string) : String.rev (String.rev a) = a.
Proof.
  unfold String.rev. rewrite rev_app_rev_app. simpl. apply string_app_empty_r.
Qed.

Lemma allChars_trim_start (p : ascii → bool) (s : string) :
  allChars p s = true → allChars p (JS.trim_start s) = true.
Proof.
  induction s as [|c t IH]; simpl; [done|].
  intros [Hc Ht]%andb_true_iff. destruct (JS.is_space c); [by apply IH|].
  simpl. by rewrite Hc, Ht.
Qed.

Lemma allChars_trim (p : ascii → bool) (s : string) :
  allChars p s = true → allChars p (JS.trim s) = true.
Proof.
  intros H. unfold JS.trim, String.rev.
  rewrite allChars_rev_app, andb_true_r. apply allChars_trim_start.
  rewrite allChars_rev_app, andb_true_r. by apply allChars_trim_start.
Qed.

Lemma trim_start_spaceFree (s : string) : spaceFree s = true → JS.trim_start s = s.
Proof.
  destruct s as [|c t]; simpl; [done|].
  intros [Hc _]%andb_true_iff. by destruct (JS.is_space c).
Qed.

Lemma trim_spaceFree (s : string) : spaceFree s = true → JS.trim s = s.
Proof.
  intros H. unfold JS.trim. rewrite (trim_start_spaceFree s H).
  rewrite trim_start_spaceFree; [apply string_rev_involutive|].
  unfold spaceFree, String.rev. by rewrite allChars_rev_app, andb_true_r.
Qed.

Lemma strip_leading_v_spaceFree (s : string) :
  spaceFree s = true → spaceFree (JS.strip_leading_v s) = true.
Proof.
  destruct s as [|c t]; [done|]. unfold spaceFree. simpl.
  intros [Hc Ht]%andb_true_iff.
  destruct c as [[] [] [] [] [] [] [] []]; simpl; try done; by rewrite Ht.
Qed.

Lemma lang_repeat_class (lo : nat) (hi : option nat) (p : ascii → bool) (g : string) :
  lang (Regex.Repeat lo hi (Regex.CharClass p)) g →
  lo ≤ String.length g ∧ allChars p g = true.
Proof.
  simpl. intros (ss & -> & Hlo & _ & Hss).
  assert (H : length ss ≤ String.length (foldr String.append "" ss) ∧
              allChars p (foldr String.append "" ss) = true).
  { clear Hlo. induction Hss as [|x ss (c & -> & Hc) _ [IHl IHa]]; [done|].
    change (foldr String.append "" (String c "" :: ss))
      with (String c (foldr String.append "" ss)).
    simpl. rewrite Hc, IHa. split; [lia|done]. }
  destruct H. split; [lia|done].
Qed.

Lemma lang_plus_nonspace (g : string) :
  lang (Regex.plus Regex.nonspace) g → g ≠ "" ∧ spaceFree g = true.
Proof.
  intros [Hlen Hall]%lang_repeat_class. split; [|done].
  intros ->. simpl in Hlen. lia.
Qed.

Lemma requireRegex_groups (i : nat) (g : string) :
  capturedBy GoRegex.requireRegex i g → g ≠ "" ∧ spaceFree g = true.
Proof.
  unfold GoRegex.requireRegex, Regex.seqs.
  cbn [foldr capturedBy Regex.lit Regex.chr Regex.plus Regex.space Regex.nonspace].
  intros H. apply lang_plus_nonspace. unfold Regex.plus, Regex.nonspace. tauto.
Qed.

Lemma lineRegex_groups (i : nat) (g : string) :
  capturedBy GoRegex.lineRegex i g → g ≠ "" ∧ spaceFree g = true.
Proof.
  unfold GoRegex.lineRegex, Regex.seqs.
  cbn [foldr capturedBy Regex.lit Regex.chr Regex.plus Regex.space Regex.nonspace].
  intros H. apply lang_plus_nonspace. unfold Regex.plus, Regex.nonspace. tauto.
Qed.

Lemma recordRequire_wellFormed (requires : gmap string string) (m : Regex.match_result) :
  wellFormedRequires requires →
  (∀ i g, Regex.group i m = Some g → g ≠ "" ∧ spaceFree g = true) →
  wellFormedRequires (recordRequire requires m).
Proof.
  intros Hwf Hgroups. unfold recordRequire.
  destruct (Regex.group 1 m) as [g1|] eqn:H1; [|done].
  destruct (Regex.group 2 m) as [g2|] eqn:H2; [|done].
  destruct (Hgroups _ _ H1) as [Hne1 Hsf1], (Hgroups _ _ H2) as [_ Hsf2].
  cbn zeta. rewrite (trim_spaceFree g1 Hsf1), (trim_spaceFree g2 Hsf2).
  intros name version [[<- <-]|[_ Hold]]%lookup_insert_Some; [|by apply Hwf].
  split; [done|]. split; [done|]. by apply strip_leading_v_spaceFree.
Qed.

Lemma recordBlock_wellFormed (requires : gmap string string) (blockMatch : string) :
  wellFormedRequires requires → wellFormedRequires (recordBlock requires blockMatch).
Proof.
  unfold recordBlock. cbn zeta.
  generalize (JS.split_lines (Regex.remove_all GoRegex.blockDelimiters blockMatch)).
  intros lines. revert requires.
  induction lines as [|line lines IH]; intros requires Hwf; simpl; [done|].
  apply IH. destruct (Regex.exec GoRegex.lineRegex (JS.trim line)) as [m|] eqn:E; [|done].
  apply recordRequire_wellFormed; [done|].
  apply search_sound in E as (_ & _ & C).
  intros i g Hg. by apply lineRegex_groups with i, C.
Qed.

(** X22: whatever the text, every entry of the parsed [requires] has
    a non-empty module name, and neither the name nor the version holds
    white space (the version may be empty: a bare "v" is stripped). *)
Theorem parseGoMod_requires_wellFormed (content name version : string) :
  requires (parseGoMod content) !! name = Some version →
  name ≠ "" ∧ spaceFree name = true ∧ spaceFree version = true.
Proof.
  revert name version. change (wellFormedRequires (requires (parseGoMod content))).
  unfold parseGoMod. cbn [requires].
  generalize (Regex.matched <$> Regex.exec_all GoRegex.requireBlockRegex content).
  intros blocks.
  assert (Hfirst : wellFormedRequires
                     (foldl recordRequire ∅ (Regex.exec_all GoRegex.requireRegex content))).
  { unfold Regex.exec_all.
    pose proof (all_from_sound (String.length content) GoRegex.requireRegex
                  (S (String.length content)) content) as Hall.
    revert Hall. generalize (Regex.all_from (S (String.length content))
                               (String.length content) GoRegex.requireRegex content).
    intros ms Hall.
    assert (Hempty : wellFormedRequires ∅) by (by intros ?? ?%lookup_empty_Some).
    revert Hempty. generalize (∅ : gmap string string).
    induction Hall as [|m ms (_ & _ & C) _ IH]; intros requires Hwf; simpl; [done|].
    apply IH, recordRequire_wellFormed; [done|].
    intros i g Hg. by apply requireRegex_groups with i, C. }
  revert Hfirst. generalize (foldl recordRequire ∅ (Regex.exec_all GoRegex.requireRegex content)).
  induction blocks as [|block blocks IH]; intros requires Hwf; simpl; [done|].
  by apply IH, recordBlock_wellFormed.
Qed.

Lemma lang_Seq (r1 r2 : Regex.regex) (s : string) :
  lang (Regex.Seq r1 r2) s ↔ ∃ s1 s2, s = s1 +:+ s2 ∧ lang r1 s1 ∧ lang r2 s2.
Proof. done. Qed.

Lemma lang_chr (c : ascii) (s : string) : lang (Regex.chr c) s → s = String c "".
Proof. simpl. by intros (x & -> & ->%bool_decide_eq_true). Qed.

Lemma lang_opt (r : Regex.regex) (s : string) : lang (Regex.opt r) s → s = "" ∨ lang r s.
Proof.
  simpl. intros (ss & -> & _ & Hhi & Hss).
  destruct Hss as [|x ss Hx Hss]; [by left|]. right.
  destruct ss; [|simpl in Hhi; lia]. simpl. by rewrite string_app_empty_r.
Qed.

Lemma lang_plus_digit (s : string) : lang (Regex.plus Regex.digit) s → digits s.
Proof.
  intros [Hlen Hall]%lang_repeat_class. split; [|done].
  intros ->. simpl in Hlen. lia.
Qed.

Lemma lang_lit (s x : string) : lang (Regex.lit s) x → x = s.
Proof.
  revert x. induction s as [|c t IH]; intros x; [done|].
  destruct t as [|c' t]; [apply lang_chr|].
  change (Regex.lit (String c (String c' t)))
    with (Regex.Seq (Regex.chr c) (Regex.lit (String c' t))).
  intros (s1 & s2 & -> & ->%lang_chr & ->%IH)%lang_Seq. done.
Qed.

Lemma digit_not_space (c : ascii) : JS.is_digit c = true → negb (JS.is_space c) = true.
Proof. destruct c as [[] [] [] [] [] [] [] []]; by vm_compute. Qed.

Lemma digits_spaceFree (s : string) : digits s → spaceFree s = true.
Proof. intros [_ H]. eapply allChars_impl; [apply digit_not_space|done]. Qed.

Lemma lang_goVersion (g : string) : lang GoRegex.goVersion g → dottedVersion g.
Proof.
  unfold GoRegex.goVersion, Regex.seqs. cbn [foldr].
  intros (a & ? & -> & Ha%lang_plus_digit &
          (? & ? & -> & ->%lang_chr &
           (b & ? & -> & Hb%lang_plus_digit &
            (c & ? & -> & Hc%lang_opt & ->)%lang_Seq)%lang_Seq)%lang_Seq)%lang_Seq.
  exists a, b, c. rewrite string_app_empty_r. split; [done|]. split; [done|].
  split; [done|]. destruct Hc as [->|Hc]; [by left|]. right.
  apply lang_Seq in Hc as (? & d & -> & ->%lang_chr & Hd%lang_plus_digit).
  by exists d.
Qed.

Lemma goVersion_no_groups (i : nat) (g : string) : ¬ capturedBy GoRegex.goVersion i g.
Proof.
  unfold GoRegex.goVersion, Regex.seqs.
  cbn [foldr capturedBy Regex.lit Regex.chr Regex.plus Regex.opt Regex.digit]. tauto.
Qed.

(** X23: the scalar fields of the parsed go.mod.  [module] never holds
    a line break.  [go] is either empty or a dotted version of two or
    three non-empty runs of digits, whatever follows the directive in
    the text. *)
Theorem parseGoMod_module_and_go (content : string) :
  allChars (λ c, negb (JS.is_line_terminator c)) (module (parseGoMod content)) = true ∧
  (go (parseGoMod content) = "" ∨ dottedVersion (go (parseGoMod content))).
Proof.
  unfold parseGoMod. cbn [module go]. split.
  - destruct (Regex.exec GoRegex.moduleRegex content) as [m|] eqn:E; [|done].
    apply allChars_trim. destruct (Regex.group 1 m) as [g|] eqn:Hg; [|done]. simpl.
    apply search_sound in E as (_ & _ & C). apply C in Hg.
    revert Hg. unfold GoRegex.moduleRegex, Regex.seqs.
    cbn [foldr capturedBy Regex.lit Regex.chr Regex.plus Regex.space Regex.dot].
    intros H. assert (Hl : lang (Regex.plus Regex.dot) g) by (unfold Regex.plus, Regex.dot; tauto).
    by apply lang_repeat_class in Hl as [_ Hl].
  - destruct (Regex.exec GoRegex.goRegex content) as [m|] eqn:E; [|by left].
    destruct (Regex.group 1 m) as [g|] eqn:Hg; [|by left]. simpl. right.
    apply search_sound in E as (_ & _ & C). apply C in Hg.
    revert Hg. unfold GoRegex.goRegex, Regex.seqs.
    cbn [foldr capturedBy Regex.lit Regex.chr Regex.plus Regex.space].
    intros H. pose proof (goVersion_no_groups 1 g).
    assert (Hl : lang GoRegex.goVersion g) by tauto.
    apply lang_goVersion in Hl as (a & b & c & -> & Ha & Hb & Hc).
    exists a, b, c. split; [|done]. apply trim_spaceFree.
    unfold spaceFree. rewrite !allChars_app.
    fold (spaceFree a) (spaceFree b) (spaceFree c).
    rewrite (digits_spaceFree a Ha), (digits_spaceFree b Hb). simpl.
    destruct Hc as [->|(d & -> & Hd)]; [done|].
    unfold spaceFree. rewrite allChars_app. fold (spaceFree d).
    by rewrite (digits_spaceFree d Hd).
Qed.

Lemma occursIn_occurs (x s : string) : occursIn x s → occurs x s = true.
Proof.
  intros (pre & post & ->). induction pre as [|c pre IH].
  - assert (Hp : String.prefix x (x +:+ post) = true).
    { apply String.prefix_correct. apply substring_prefix. }
    change ("" +:+ x +:+ post) with (x +:+ post).
    assert (Hunfold : ∀ s, occurs x s = String.prefix x s
                             || match s with "" => false | String _ t => occurs x t end)
      by (by intros []).
    by rewrite Hunfold, Hp.
  - rewrite string_app_cons. cbn [occurs]. rewrite IH. apply orb_true_r.
Qed.

Lemma exec_all_without (r : Regex.regex) (word content : string) :
  (∀ x, lang r x → ∃ post, x = word +:+ post) →
  occurs word content = false →
  Regex.exec_all r content = [].
Proof.
  intros Hword Hno. unfold Regex.exec_all.
  pose proof (all_from_sound (String.length content) r (S (String.length content)) content)
    as Hall.
  destruct (Regex.all_from _ _ r content) as [|m ms]; [done|]. exfalso.
  apply Forall_cons in Hall as [((pre & post & ->) & L & _) _].
  destruct (Hword _ L) as [post' Hm]. rewrite Hm in Hno.
  rewrite occursIn_occurs in Hno; [done|].
  exists pre, (post' +:+ post). by rewrite string_app_assoc.
Qed.

(** X24: a text in which the word "require" does not occur yields no
    requirement at all: neither the single-line pass nor the block pass
    records anything. *)
Theorem parseGoMod_without_require (content : string) :
  occurs "require" content = false → requires (parseGoMod content) = ∅.
Proof.
  intros Hno. unfold parseGoMod. cbn [requires].
  rewrite (exec_all_without GoRegex.requireRegex "require" content),
          (exec_all_without GoRegex.requireBlockRegex "require" content); try done.
  - unfold GoRegex.requireBlockRegex, Regex.seqs. cbn [foldr].
    intros x (? & post & -> & ->%lang_lit & _)%lang_Seq. by exists post.
  - unfold GoRegex.requireRegex, Regex.seqs. cbn [foldr].
    intros x (? & post & -> & ->%lang_lit & _)%lang_Seq. by exists post.
Qed.

(** ** What updateGoVersion writes *)




Lemma parseGoMod_requires_witness :
  "example.com/a" ≠ "" ∧ spaceFree "example.com/a" = true ∧ spaceFree "1.2.3" = true.
Proof.
  apply (parseGoMod_requires_wellFormed "require example.com/a v1.2.3").
  vm_compute. reflexivity.
Defined.

Lemma parseGoMod_without_require_witness :
  requires (parseGoMod "module example.com/m go 1.21") = ∅.
Proof. apply parseGoMod_without_require. reflexivity. Defined.
